(** * go-forms: form-field coercion and validation

    A shallow embedding of [form.go] and [validation.go] of
    github.com/episub/go-forms, and the properties of its specification.

    Conventions of the embedding.
    - A Go [string] is a sequence of bytes: Rocq's [string].
    - A Go [interface{}] value is a [value]: its dynamic type together with
      its data.  Dynamic types other than [bool], [string] and [uuid.UUID]
      are kept as [VOther], which carries what the verbs [%T] and [%v] of
      package fmt print for the value.
    - A Go [error] is [option error]: [None] is [nil], [Some e] carries the
      text returned by [e.Error()].
    - A Go [map] is a [gmap]; a [range] loop over a map visits its entries
      in an unspecified order, so the loop of [ApplyDefinition] is a function
      of the list of entries in the order visited.
    - A [Validator] is a function value; as the data model has it, it is
      stateless and free of side effects, hence a function of Rocq.
    - The functions of the Go libraries the code calls (package strings,
      package fmt, package uuid) are the fields of the class [GoLib]. *)

From Stdlib Require Import String Ascii List Bool Arith Lia.
From stdpp Require Import base option list strings gmap fin_maps.
From Stdlib Require Import ZArith DecimalString.

Local Open Scope string_scope.

(** ** Values, errors *)

(** [type UUID [16]byte] of package uuid. *)
Record UUID := mkUUID { uuid_bytes : string }.

Inductive value :=
| VNil
| VBool (b : bool)
| VString (s : string)
| VUUID (u : UUID)
| VOther (type_name : string) (formatted : string).

(** An error value, identified with its message. *)
Record error := New { Error : string }.

(** ** The library functions used by the package *)

Class GoLib := {
  (** [strings.TrimSpace] *)
  TrimSpace : string -> string;
  (** what package fmt prints for a format string that contains a ['%'],
      when no operand is given *)
  fmt_verbs : string -> string;
  (** [uuid.FromString] *)
  FromString : string -> UUID * option error;
  (** [uuid.UUID.String] *)
  UUID_String : UUID -> string
}.

Fixpoint percent_free (s : string) : bool :=
  match s with
  | EmptyString => true
  | String c rest => negb (Ascii.eqb c "%") && percent_free rest
  end.

Section Package.
Context `{GoLib}.

(** [fmt.Sprintf(format)], no operands: a format without ['%'] is printed
    as it is. *)
Definition Sprintf0 (format : string) : string :=
  if percent_free format then format else fmt_verbs format.

(** [fmt.Errorf(format)], no operands. *)
Definition Errorf0 (format : string) : error := New (Sprintf0 format).

(** What the verb [%T] prints. *)
Definition TypeOf (v : value) : string :=
  match v with
  | VNil => "<nil>"
  | VBool _ => "bool"
  | VString _ => "string"
  | VUUID _ => "uuid.UUID"
  | VOther type_name _ => type_name
  end.

(** What the verb [%v] prints. *)
Definition Sprint_v (v : value) : string :=
  match v with
  | VNil => "<nil>"
  | VBool true => "true"
  | VBool false => "false"
  | VString s => s
  | VUUID u => UUID_String u
  | VOther _ formatted => formatted
  end.

(** ** form.go *)

Definition TypeName := string.
Definition TypeBool : TypeName := "bool".
Definition TypeString : TypeName := "string".
Definition TypeUUID : TypeName := "uuid".

Definition MissingErrorOption := string.
Definition MissingErrorNone : MissingErrorOption := "".
Definition MissingErrorWarn : MissingErrorOption := "warn".
Definition MissingErrorFail : MissingErrorOption := "fail".

Definition Validator := value -> option error.

Record FieldDefinition := {
  Name : string;
  Group : string;
  FieldType : TypeName;
  Validations : list Validator;
  DisableTrim : bool
}.

Record Definition_ := { Fields : gmap string FieldDefinition }.

Record ApplyOptions := { ErrorOnPermission : MissingErrorOption }.

Fixpoint inList (list : list string) (str : string) : bool :=
  match list with
  | [] => false
  | v :: rest => if String.eqb v str then true else inList rest str
  end.

Definition ensureBool (s : value) (trimSpace : bool) : value * option error :=
  match s with
  | VBool _ => (s, None)
  | VString str =>
      let str := if trimSpace then TrimSpace str else str in
      if String.eqb str "true" || String.eqb str "on" then (VBool true, None)
      else if String.eqb str "false" || String.eqb str "off" then (VBool false, None)
      else (VNil, Some (Errorf0 "field must be true or false"))
  | v => (VNil, Some (New ("Cannot convert type " +:+ TypeOf v +:+ " to bool")))
  end.

Definition ensureString (s : value) (trimSpace : bool) : value * option error :=
  match s with
  | VString _ =>
      if trimSpace then (VString (TrimSpace (Sprint_v s)), None)
      else (VString (Sprint_v s), None)
  | v => (VNil, Some (New ("Cannot convert type " +:+ TypeOf v +:+ " to string")))
  end.

Definition ensureUUID (s : value) (trimSpace : bool) : value * option error :=
  match s with
  | VUUID _ => (s, None)
  | VString str =>
      let '(u, err) := if trimSpace then FromString (TrimSpace str)
                       else FromString str in
      (VUUID u, err)
  | v => (VNil, Some (New ("Cannot convert type " +:+ TypeOf v +:+ " to uuid.UUID")))
  end.

(** The earlier revision of [ensureString]. *)
Definition ensureString_legacy (s : value) : value * option error :=
  let str := Sprint_v s in
  (VString str, None).

(** A call [validator(applied[k])] made by the loop: the key, the place of
    the validator in [Validations], and the value it is given. *)
Record Call := { call_key : string; call_index : nat; call_arg : value }.

(** The state of the loop of [ApplyDefinition]: the two maps under
    construction, the lines given to the logger, and the calls of validators
    made so far. *)
Record State := {
  applied : gmap string value;
  errors : gmap string (list error);
  warnings : list string;
  calls : list Call
}.

(** [m[k]] on a map of values: [nil] when the key is missing. *)
Definition index (m : gmap string value) (k : string) : value :=
  default VNil (m !! k).

(** [errors[k] = append(errors[k], err)] *)
Definition append_error (errors : gmap string (list error)) (k : string)
    (err : error) : gmap string (list error) :=
  <[k := (default [] (errors !! k) ++ [err])%list]> errors.

(** [for _, validator := range fieldDef.Validations { ... }], from the
    validator at place [i] on. *)
Fixpoint check_validations (validations : list Validator) (i : nat)
    (k : string) (applied : gmap string value)
    (errors : gmap string (list error)) (calls : list Call)
    : gmap string (list error) * list Call :=
  match validations with
  | [] => (errors, calls)
  | validator :: rest =>
      let arg := index applied k in
      let calls :=
        (calls ++ [{| call_key := k; call_index := i; call_arg := arg |}])%list in
      match validator arg with
      | Some err =>
          check_validations rest (S i) k applied (append_error errors k err) calls
      | None => check_validations rest (S i) k applied errors calls
      end
  end.

(** The [switch fieldDef.FieldType]: the assignment to [applied[k]] is made
    with whatever the coercion returns, also when it returns an error. *)
Definition coerce_field (fieldDef : FieldDefinition) (k : string) (v : value)
    (applied : gmap string value) : gmap string value * option error :=
  if String.eqb (FieldType fieldDef) TypeBool then
    let '(r, err) := ensureBool v (negb (DisableTrim fieldDef)) in
    (<[k := r]> applied, err)
  else if String.eqb (FieldType fieldDef) TypeString then
    let '(r, err) := ensureString v (negb (DisableTrim fieldDef)) in
    (<[k := r]> applied, err)
  else if String.eqb (FieldType fieldDef) TypeUUID then
    let '(r, err) := ensureUUID v (negb (DisableTrim fieldDef)) in
    (<[k := r]> applied, err)
  else
    (applied,
     Some (New ("Unknown field type " +:+ FieldType fieldDef +:+
                " when converting field " +:+ k))).

(** The body of [for k, v := range m]. *)
Definition apply_entry (def : Definition_) (permittedFields : list string)
    (options : ApplyOptions) (st : State) (k : string) (v : value) : State :=
  if negb (inList permittedFields k) then
    let msg := "Using field " +:+ k +:+ " not permitted" in
    if String.eqb (ErrorOnPermission options) MissingErrorWarn then
      {| applied := applied st; errors := errors st;
         warnings := (warnings st ++ [Sprintf0 msg])%list;
         calls := calls st |}
    else if String.eqb (ErrorOnPermission options) MissingErrorFail then
      {| applied := applied st;
         errors := append_error (errors st) k (Errorf0 msg);
         warnings := warnings st; calls := calls st |}
    else st
  else
    match Fields def !! k with
    | None => st
    | Some fieldDef =>
        let '(applied', err) := coerce_field fieldDef k v (applied st) in
        match err with
        | Some e =>
            {| applied := applied';
               errors := append_error (errors st) k e;
               warnings := warnings st; calls := calls st |}
        | None =>
            let '(errors', calls') :=
              check_validations (Validations fieldDef) 0 k applied'
                (errors st) (calls st) in
            {| applied := applied'; errors := errors';
               warnings := warnings st; calls := calls' |}
        end
    end.

(** The loop, over the entries in the order the [range] visits them. *)
Definition apply_entries (def : Definition_) (permittedFields : list string)
    (options : ApplyOptions) (entries : list (string * value)) (st : State)
    : State :=
  foldl (fun st kv => apply_entry def permittedFields options st kv.1 kv.2)
        st entries.

(** What a call returns ([None] for a [nil] map or a [nil] error), what it
    has logged, and the calls of validators it has made. *)
Record Outcome := {
  coerced : option (gmap string value);
  fieldErrors : option (gmap string (list error));
  topError : option error;
  logged : list string;
  validator_calls : list Call
}.

(** [ApplyDefinition], the entries of [m] being visited in the order
    [entries]. *)
Definition ApplyDefinition_range (def : Definition_)
    (permittedFields : list string) (entries : list (string * value))
    (options : ApplyOptions) : Outcome :=
  if Nat.eqb (length permittedFields) 0 then
    {| coerced := None; fieldErrors := None;
       topError := Some (Errorf0
         "Must provide a list of permitted fields with one or more fields");
       logged := []; validator_calls := [] |}
  else
    let st := apply_entries def permittedFields options entries
                {| applied := ∅; errors := ∅; warnings := []; calls := [] |} in
    {| coerced := Some (applied st); fieldErrors := Some (errors st);
       topError := None; logged := warnings st;
       validator_calls := calls st |}.

Definition ApplyDefinition (def : Definition_) (permittedFields : list string)
    (m : gmap string value) (options : ApplyOptions) : Outcome :=
  ApplyDefinition_range def permittedFields (map_to_list m) options.

(** ** validation.go *)

(** [strings.Join] *)
Fixpoint Join (elems : list string) (sep : string) : string :=
  match elems with
  | [] => ""
  | [e] => e
  | e :: rest => e +:+ sep +:+ Join rest sep
  end.

(** The loop of [ValidateOrChain]: [None] when a delegate passed (the
    [return nil] inside the loop), else the messages collected; with the
    number of delegates called. *)
Fixpoint orChain_loop (validators : list Validator) (s : value)
    (errors : list string) (calls : nat) : option (list string) * nat :=
  match validators with
  | [] => (Some errors, calls)
  | vd :: rest =>
      match vd s with
      | Some err => orChain_loop rest s (errors ++ [Error err])%list (S calls)
      | None => (None, S calls)
      end
  end.

Definition ValidateOrChain (validators : list Validator) : Validator :=
  fun s =>
    match fst (orChain_loop validators s [] 0) with
    | None => None
    | Some errors =>
        if Nat.eqb (length errors) 0 then None
        else Some (Errorf0 (Join errors " or "))
    end.

(** Number of delegates that the validator of [ValidateOrChain] calls. *)
Definition ValidateOrChain_calls (validators : list Validator) (s : value)
    : nat :=
  snd (orChain_loop validators s [] 0).

(** Regular expressions over bytes, with the anchors [^] and [$] of the
    pattern kept apart from its body. *)
Inductive regex :=
| Void
| Eps
| Class (p : ascii -> bool)
| Cat (r1 r2 : regex)
| Alt (r1 r2 : regex)
| Star (r : regex).

Record Regexp := { begin_text : bool; body : regex; end_text : bool }.

Fixpoint nullable (r : regex) : bool :=
  match r with
  | Void => false
  | Eps => true
  | Class _ => false
  | Cat r1 r2 => nullable r1 && nullable r2
  | Alt r1 r2 => nullable r1 || nullable r2
  | Star _ => true
  end.

Fixpoint deriv (c : ascii) (r : regex) : regex :=
  match r with
  | Void => Void
  | Eps => Void
  | Class p => if p c then Eps else Void
  | Cat r1 r2 =>
      if nullable r1 then Alt (Cat (deriv c r1) r2) (deriv c r2)
      else Cat (deriv c r1) r2
  | Alt r1 r2 => Alt (deriv c r1) (deriv c r2)
  | Star r1 => Cat (deriv c r1) (Star r1)
  end.

(** The whole of [s] is in the language of [r]. *)
Fixpoint full_match (r : regex) (s : string) : bool :=
  match s with
  | EmptyString => nullable r
  | String c rest => full_match (deriv c r) rest
  end.

Definition any_text : regex := Star (Class (fun _ => true)).

(** [rx.MatchString(s)]: some part of [s] matches, the part starting at the
    beginning of [s] under [^] and ending at its end under [$]. *)
Definition MatchString (rx : Regexp) (s : string) : bool :=
  full_match
    (Cat (if begin_text rx then Eps else any_text)
         (Cat (body rx) (if end_text rx then Eps else any_text)))
    s.

Definition is_digit (c : ascii) : bool :=
  (48 <=? nat_of_ascii c)%nat && (nat_of_ascii c <=? 57)%nat.

Definition Opt (r : regex) : regex := Alt r Eps.

(** [regexp.MustCompile(`^-?\d*$`)] *)
Definition numberRx : Regexp :=
  {| begin_text := true;
     body := Cat (Opt (Class (Ascii.eqb "-"))) (Star (Class is_digit));
     end_text := true |}.

Definition ValidateRegex (rx : Regexp) (message : string) : Validator :=
  fun s =>
    match s with
    | VString value =>
        if negb (MatchString rx value) then Some (Errorf0 message)
        else None
    | _ => Some (Errorf0 "Field must be string")
    end.

Definition ValidateFail (message : string) : Validator :=
  fun v => Some (Errorf0 message).

Definition ValidateNumbers : Validator :=
  ValidateRegex numberRx "Must be numbers only".

End Package.

(** ** The rest of the package *)

(** What the verb [%d] prints for an [int]. *)
Definition Sprint_d (n : Z) : string := NilZero.string_of_int (Z.to_int n).

(** [one or more] *)
Definition Plus (r : regex) : regex := Cat r (Star r).

Definition anchored (r : regex) : Regexp :=
  {| begin_text := true; body := r; end_text := true |}.

(** The class [\s]: tab, line feed, form feed, carriage return, space. *)
Definition is_perl_space (c : ascii) : bool :=
  let n := nat_of_ascii c in
  Nat.eqb n 9 || Nat.eqb n 10 || Nat.eqb n 12 || Nat.eqb n 13 || Nat.eqb n 32.

(** The class [\S].  The pattern is matched character by character; the
    bytes of a character other than these five are none of the five, and
    ['@'] is a character of one byte, so matching byte by byte is the
    same. *)
Definition non_space (c : ascii) : bool := negb (is_perl_space c).

Definition is_letter (c : ascii) : bool :=
  let n := nat_of_ascii c in
  ((97 <=? n)%nat && (n <=? 122)%nat) || ((65 <=? n)%nat && (n <=? 90)%nat).

(** The class [[a-zA-Z0-9]]. *)
Definition is_alnum (c : ascii) : bool := is_letter c || is_digit c.

(** The class [[_-]]. *)
Definition is_separator (c : ascii) : bool :=
  Ascii.eqb c "_" || Ascii.eqb c "-".

(** [regexp.MustCompile(`^\S+@\S+$`)] *)
Definition emailRx : Regexp :=
  anchored (Cat (Plus (Class non_space))
                (Cat (Class (Ascii.eqb "@")) (Plus (Class non_space)))).

(** [regexp.MustCompile(`^[a-zA-Z0-9]+$`)] *)
Definition lettersWithNumbersRx : Regexp := anchored (Plus (Class is_alnum)).

(** [regexp.MustCompile(`^[A-Za-z0-9]+(?:[_-][A-Za-z0-9]+)*$`)] *)
Definition usernameRx : Regexp :=
  anchored (Cat (Plus (Class is_alnum))
                (Star (Cat (Class is_separator) (Plus (Class is_alnum))))).

(** [GetGroup], the fields of the definition being visited in the order
    [fields]. *)
Definition GetGroup_range (fields : list (string * FieldDefinition))
    (group : string) (m : gmap string value) : gmap string value :=
  foldl (fun out nf =>
           if String.eqb (Group nf.2) group then
             match m !! nf.1 with
             | Some v => <[nf.1 := v]> out
             | None => out
             end
           else out)
        ∅ fields.

Definition GetGroup (def : Definition_) (group : string)
    (m : gmap string value) : gmap string value :=
  GetGroup_range (map_to_list (Fields def)) group m.

Section Rest.
Context `{GoLib}.

Definition ErrMustBeString : error := Errorf0 "Field must be a string".
Definition ErrMustBeBool : error := Errorf0 "Field must be a boolean".
Definition ErrMustBeInt : error := Errorf0 "Field must be an integer".

Definition ValidateEmail : Validator :=
  ValidateRegex emailRx "Email address is invalid".

(** The type assertion [v.(error)] is a parameter: [None] when it does not
    hold, [Some err] when it does, [err] being a Go [error], [None] for
    nil. *)
Definition ValidateNoError (as_error : value -> option (option error))
    (message : string) : Validator :=
  fun v =>
    match as_error v with
    | None => Some (Errorf0 "Value must be an error")
    | Some err =>
        match err with
        | Some _ => Some (Errorf0 "message")
        | None => None
        end
    end.

Definition ValidateFalse (msg : string) : Validator :=
  fun v =>
    match v with
    | VBool b => if b then Some (Errorf0 msg) else None
    | _ => Some (Errorf0 "Value must be a bool")
    end.

(** The bounds are Go [int]s, here integers; [len(field)] counts bytes. *)
Definition ValidateLength (m n : Z) : Validator :=
  fun v =>
    match v with
    | VString field =>
        let msg :=
          if (m =? n)%Z then
            "Must be exactly " +:+ Sprint_d m +:+ " characters long"
          else
            "Must be between " +:+ Sprint_d m +:+ " and " +:+ Sprint_d n +:+
            " characters long" in
        if (Z.of_nat (String.length field) <? m)%Z
           || (Z.of_nat (String.length field) >? n)%Z
        then Some (Errorf0 msg)
        else None
    | _ => Some ErrMustBeString
    end.

Definition ValidateMinimumLength (n : Z) : Validator :=
  fun s =>
    match s with
    | VString v =>
        if (Z.of_nat (String.length v) <? n)%Z then
          Some (New ("Must be at least " +:+ Sprint_d n +:+ " characters long"))
        else None
    | _ => Some ErrMustBeString
    end.

Definition ValidateUUID : Validator :=
  fun s =>
    match s with
    | VString v =>
        match (FromString v).2 with
        | Some _ => Some (Errorf0 "Expected UUID for field")
        | None => None
        end
    | _ => Some ErrMustBeString
    end.

Definition ValidateUsername : Validator :=
  ValidateRegex usernameRx
    "Usernames can only contain letters, numbers, underscores and hyphens, and must not begin or end with an underscore or hyphen".

Definition ValidateLettersWithNumbers : Validator :=
  ValidateRegex lettersWithNumbersRx "Must only contain letters and numbers".

Definition ValidateTrue (msg : string) : Validator :=
  fun s =>
    match s with
    | VBool v => if negb v then Some (Errorf0 msg) else None
    | _ => Some ErrMustBeBool
    end.

(** *** The earlier revision of form.go *)

Record FieldDefinition_legacy := {
  Name_legacy : string;
  Group_legacy : string;
  FieldType_legacy : TypeName;
  Validations_legacy : list Validator
}.

Record Definition_legacy := { Fields_legacy : gmap string FieldDefinition_legacy }.

Record ApplyOptions_legacy := { ErrorOnPermission_legacy : bool }.

Definition ensureBool_legacy (s : value) : value * option error :=
  match s with
  | VBool _ => (s, None)
  | VString str =>
      if String.eqb str "true" || String.eqb str "on" then (VBool true, None)
      else if String.eqb str "false" || String.eqb str "off" then (VBool false, None)
      else (VNil, Some (Errorf0 "field must be true or false"))
  | v => (VNil, Some (New ("Cannot convert type " +:+ TypeOf v +:+ " to bool")))
  end.

Definition ensureUUID_legacy (s : value) : value * option error :=
  match s with
  | VUUID _ => (s, None)
  | VString str => let '(id, err) := FromString str in (VUUID id, err)
  | v => (VNil, Some (New ("Cannot convert type " +:+ TypeOf v +:+ " to uuid.UUID")))
  end.

Definition coerce_field_legacy (fieldDef : FieldDefinition_legacy) (k : string)
    (v : value) (applied : gmap string value)
    : gmap string value * option error :=
  if String.eqb (FieldType_legacy fieldDef) TypeBool then
    let '(r, err) := ensureBool_legacy v in (<[k := r]> applied, err)
  else if String.eqb (FieldType_legacy fieldDef) TypeString then
    let '(r, err) := ensureString_legacy v in (<[k := r]> applied, err)
  else if String.eqb (FieldType_legacy fieldDef) TypeUUID then
    let '(r, err) := ensureUUID_legacy v in (<[k := r]> applied, err)
  else
    (applied,
     Some (New ("Unknown field type " +:+ FieldType_legacy fieldDef +:+
                " when converting field " +:+ k))).

(** The body of the loop of the earlier [ApplyDefinition], on the two maps. *)
Definition apply_entry_legacy (def : Definition_legacy)
    (permittedFields : list string) (options : ApplyOptions_legacy)
    (st : gmap string value * gmap string (list error)) (k : string)
    (v : value) : gmap string value * gmap string (list error) :=
  if negb (inList permittedFields k) then
    if ErrorOnPermission_legacy options then
      (st.1,
       append_error st.2 k
         (New ("Using field " +:+ k +:+ " not permitted")))
    else st
  else
    match Fields_legacy def !! k with
    | None => st
    | Some fieldDef =>
        let '(applied', err) := coerce_field_legacy fieldDef k v st.1 in
        match err with
        | Some e => (applied', append_error st.2 k e)
        | None =>
            (applied',
             (check_validations (Validations_legacy fieldDef) 0 k applied'
                st.2 []).1)
        end
    end.

Definition ApplyDefinition_legacy_range (def : Definition_legacy)
    (permittedFields : list string) (entries : list (string * value))
    (options : ApplyOptions_legacy)
    : option (gmap string value) * option (gmap string (list error))
      * option error :=
  if Nat.eqb (length permittedFields) 0 then
    (None, None,
     Some (Errorf0
       "Must provide a list of permitted fields with one or more fields"))
  else
    let st := foldl (fun st kv =>
                       apply_entry_legacy def permittedFields options st kv.1 kv.2)
                    (∅, ∅) entries in
    (Some st.1, Some st.2, None).

Definition ApplyDefinition_legacy (def : Definition_legacy)
    (permittedFields : list string) (m : gmap string value)
    (options : ApplyOptions_legacy)
    : option (gmap string value) * option (gmap string (list error))
      * option error :=
  ApplyDefinition_legacy_range def permittedFields (map_to_list m) options.

End Rest.

(** ** A reference instance of the library

    Used to run the package on concrete inputs.  It follows the documented
    behaviour of the Go functions on the inputs it is run on below: ASCII
    white space for [strings.TrimSpace]; for package fmt, a ['%'] followed
    by ['%'], by a letter, or by nothing; for [uuid.FromString], the
    canonical 8-4-4-4-12 text of a UUID (the other texts the package reads
    are refused here, and the text of the error is not that of the
    package).  The properties below are proved for every instance of
    [GoLib], not for this one only. *)
Module GoRef.

Definition is_space (c : ascii) : bool :=
  let n := nat_of_ascii c in
  ((9 <=? n)%nat && (n <=? 13)%nat) || Nat.eqb n 32.

Fixpoint trim_left (s : string) : string :=
  match s with
  | EmptyString => EmptyString
  | String c rest => if is_space c then trim_left rest else s
  end.

Fixpoint trim_right (s : string) : string :=
  match s with
  | EmptyString => EmptyString
  | String c rest =>
      let r := trim_right rest in
      if is_space c && String.eqb r "" then EmptyString else String c r
  end.

Definition TrimSpace (s : string) : string := trim_right (trim_left s).

(** [%%] prints a percent sign, [%] at the end prints [%!(NOVERB)], and a
    verb without operand prints [%!verb(MISSING)]. *)
Fixpoint fmt_verbs (format : string) : string :=
  match format with
  | EmptyString => EmptyString
  | String c EmptyString =>
      if Ascii.eqb c "%" then "%!(NOVERB)" else String c EmptyString
  | String c (String verb rest as tail) =>
      if Ascii.eqb c "%" then
        if Ascii.eqb verb "%" then String "%" (fmt_verbs rest)
        else "%!" +:+ String verb "(MISSING)" +:+ fmt_verbs rest
      else String c (fmt_verbs tail)
  end.

Definition hex_val (c : ascii) : option nat :=
  let n := nat_of_ascii c in
  if (48 <=? n)%nat && (n <=? 57)%nat then Some (n - 48)%nat
  else if (97 <=? n)%nat && (n <=? 102)%nat then Some (n - 87)%nat
  else if (65 <=? n)%nat && (n <=? 70)%nat then Some (n - 55)%nat
  else None.

Fixpoint hex_decode (s : string) : option string :=
  match s with
  | EmptyString => Some EmptyString
  | String a (String b rest) =>
      match hex_val a, hex_val b, hex_decode rest with
      | Some hi, Some lo, Some r =>
          Some (String (ascii_of_nat (16 * hi + lo)) r)
      | _, _, _ => None
      end
  | _ => None
  end.

Definition FromString (input : string) : UUID * option error :=
  let dash i := String.eqb (substring i 1 input) "-" in
  let digits := substring 0 8 input +:+ substring 9 4 input +:+
                substring 14 4 input +:+ substring 19 4 input +:+
                substring 24 12 input in
  if Nat.eqb (String.length input) 36
     && dash 8%nat && dash 13%nat && dash 18%nat && dash 23%nat then
    match hex_decode digits with
    | Some bytes => (mkUUID bytes, None)
    | None => (mkUUID "", Some (New "uuid: incorrect UUID format"))
    end
  else (mkUUID "", Some (New "uuid: incorrect UUID format")).

Definition hex_digit (n : nat) : ascii :=
  if (n <? 10)%nat then ascii_of_nat (48 + n) else ascii_of_nat (87 + n).

Fixpoint hex_encode (s : string) : string :=
  match s with
  | EmptyString => EmptyString
  | String c rest =>
      let n := nat_of_ascii c in
      String (hex_digit (n / 16)) (String (hex_digit (n mod 16)) (hex_encode rest))
  end.

Definition UUID_String (u : UUID) : string :=
  let h := hex_encode (uuid_bytes u) in
  substring 0 8 h +:+ "-" +:+ substring 8 4 h +:+ "-" +:+
  substring 12 4 h +:+ "-" +:+ substring 16 4 h +:+ "-" +:+ substring 20 12 h.

End GoRef.

Definition go_ref : GoLib := {|
  TrimSpace := GoRef.TrimSpace;
  fmt_verbs := GoRef.fmt_verbs;
  FromString := GoRef.FromString;
  UUID_String := GoRef.UUID_String
|}.

(** ** The fixtures of the tests of the package *)

Definition testField (fieldType : TypeName) (disableTrim : bool)
    : FieldDefinition :=
  {| Name := ""; Group := "test-group"; FieldType := fieldType;
     Validations := []; DisableTrim := disableTrim |}.

Definition testDefinition : Definition_ :=
  {| Fields :=
       <["field1" := testField TypeBool false]>
       (<["field2" := testField TypeString false]>
       (<["field3" := testField TypeString false]>
       (<["field4" := testField TypeString true]>
       (<["field5" := testField TypeUUID false]>
       (<["field6" := testField TypeUUID false]> ∅))))) |}.

Definition testPermittedFields : list string :=
  ["field1"; "field2"; "field3"; "field4"; "field5"].

Definition tab : string := String (ascii_of_nat 9) "".

Definition testInput : gmap string value :=
  <["field1" := VString "true"]>
  (<["field2" := VString "this is a string"]>
  (<["field3" := VString (tab +:+ "  this is also string but is tabbed ")]>
  (<["field4" := VString (tab +:+ "this is also string but is tabbed and should not trim" +:+ tab +:+ " ")]>
  (<["field5" := VString "123e4567-e89b-12d3-a456-426614174000"]>
  (<["field6" := VString "this is a string but it won't get permitted"]> ∅))))).

(** A field with validators, the second of which passes on digits. *)
Definition checkedField : FieldDefinition :=
  {| Name := "code"; Group := ""; FieldType := TypeString;
     Validations := [ValidateFail (H := go_ref) "first";
                     ValidateNumbers (H := go_ref);
                     ValidateFail (H := go_ref) "last"];
     DisableTrim := false |}.

Definition checkedDefinition : Definition_ :=
  {| Fields := {["code" := checkedField]} |}.

(** ** Notions used in the statements *)

Definition is_bool (v : value) : bool :=
  match v with VBool _ => true | _ => false end.

Definition is_string (v : value) : bool :=
  match v with VString _ => true | _ => false end.

Fixpoint all_digits (s : string) : bool :=
  match s with
  | EmptyString => true
  | String c rest => is_digit c && all_digits rest
  end.

(** An optional ['-'], then decimal digits only. *)
Definition numeric_shape (s : string) : bool :=
  match s with
  | String c rest => if Ascii.eqb c "-" then all_digits rest else all_digits s
  | EmptyString => true
  end.

(** The language of a regular expression. *)
Inductive lang : regex -> string -> Prop :=
| lang_eps : lang Eps ""
| lang_class p c : p c = true -> lang (Class p) (String c "")
| lang_cat r1 r2 s1 s2 : lang r1 s1 -> lang r2 s2 -> lang (Cat r1 r2) (s1 +:+ s2)
| lang_alt_l r1 r2 s : lang r1 s -> lang (Alt r1 r2) s
| lang_alt_r r1 r2 s : lang r2 s -> lang (Alt r1 r2) s
| lang_star_nil r : lang (Star r) ""
| lang_star_app r s1 s2 :
    lang r s1 -> lang (Star r) s2 -> lang (Star r) (s1 +:+ s2).

Section Entries.
Context `{GoLib}.

(** The error of the coercion of [v] under [fieldDef], and the value it
    leaves in [applied[k]]. *)
Definition coercion_error (fieldDef : FieldDefinition) (k : string)
    (v : value) : option error :=
  (coerce_field fieldDef k v ∅).2.

Definition coercion_value (fieldDef : FieldDefinition) (k : string)
    (v : value) : value :=
  index (coerce_field fieldDef k v ∅).1 k.

(** The errors of the validators that fail on [c], in their order. *)
Definition validation_errors (validations : list Validator) (c : value)
    : list error :=
  omap (fun validator : Validator => validator c) validations.

(** What one entry [(k, v)] of the input leaves in the coerced map. *)
Definition applied_entry (def : Definition_) (permittedFields : list string)
    (k : string) (v : value) : option value :=
  if inList permittedFields k then
    match Fields def !! k with
    | Some fieldDef => (coerce_field fieldDef k v ∅).1 !! k
    | None => None
    end
  else None.

(** The errors one entry [(k, v)] of the input adds under [k]. *)
Definition errors_entry (def : Definition_) (permittedFields : list string)
    (options : ApplyOptions) (k : string) (v : value) : list error :=
  if inList permittedFields k then
    match Fields def !! k with
    | Some fieldDef =>
        match coercion_error fieldDef k v with
        | Some e => [e]
        | None =>
            validation_errors (Validations fieldDef) (coercion_value fieldDef k v)
        end
    | None => []
    end
  else if String.eqb (ErrorOnPermission options) MissingErrorWarn then []
  else if String.eqb (ErrorOnPermission options) MissingErrorFail then
    [Errorf0 ("Using field " +:+ k +:+ " not permitted")]
  else [].

(** The calls of validators one entry [(k, v)] of the input gives rise to:
    none unless the key is permitted, has a field definition and is coerced
    without error; then one for each validator of the field, in the order of
    the list, on the coerced value. *)
Definition calls_entry (def : Definition_) (permittedFields : list string)
    (k : string) (v : value) : list Call :=
  if inList permittedFields k then
    match Fields def !! k with
    | Some fieldDef =>
        match coercion_error fieldDef k v with
        | Some _ => []
        | None =>
            imap (fun i _ => {| call_key := k; call_index := i;
                                call_arg := coercion_value fieldDef k v |})
                 (Validations fieldDef)
        end
    | None => []
    end
  else [].

(** The calls made for the key [k] among [calls]. *)
Definition calls_for (k : string) (calls : list Call) : list Call :=
  filter (fun c => call_key c = k) calls.

(** A list of errors as an entry of the error map: no entry when empty. *)
Definition as_entry (l : list error) : option (list error) :=
  match l with [] => None | _ => Some l end.

(** The two maps in terms of the input map: every entry of the input
    contributes under its own key only. *)
Definition coerced_of (def : Definition_) (permittedFields : list string)
    (m : gmap string value) : gmap string value :=
  map_imap (applied_entry def permittedFields) m.

Definition errors_of (def : Definition_) (permittedFields : list string)
    (options : ApplyOptions) (m : gmap string value)
    : gmap string (list error) :=
  map_imap (fun k v => as_entry (errors_entry def permittedFields options k v)) m.

End Entries.

Definition is_uuid (v : value) : bool :=
  match v with VUUID _ => true | _ => false end.

(** [r] has the dynamic type that the field type [t] stands for. *)
Definition has_type (t : TypeName) (r : value) : bool :=
  if String.eqb t TypeBool then is_bool r
  else if String.eqb t TypeString then is_string r
  else if String.eqb t TypeUUID then is_uuid r
  else false.


(** Every byte of [s] is in the class [p]. *)
Fixpoint all_chars (p : ascii -> bool) (s : string) : bool :=
  match s with
  | EmptyString => true
  | String c rest => p c && all_chars p rest
  end.

(** A definition in the form of the earlier revision, whose fields have no
    [DisableTrim]. *)
Definition legacy_field (fieldDef : FieldDefinition) : FieldDefinition_legacy :=
  {| Name_legacy := Name fieldDef; Group_legacy := Group fieldDef;
     FieldType_legacy := FieldType fieldDef;
     Validations_legacy := Validations fieldDef |}.

Definition legacy_definition (def : Definition_) : Definition_legacy :=
  {| Fields_legacy := legacy_field <$> Fields def |}.

(** After the first byte of a user name: letters and digits, and
    separators each followed by a letter or digit. *)
Fixpoint username_tail (s : string) : bool :=
  match s with
  | EmptyString => true
  | String c rest =>
      if is_alnum c then username_tail rest
      else is_separator c
           && match rest with
              | String c' _ => is_alnum c'
              | EmptyString => false
              end
           && username_tail rest
  end.

(** A letter or digit first; then letters, digits, and single separators
    ['_'] or ['-'], each followed by a letter or digit. *)
Definition username_shape (s : string) : bool :=
  match s with
  | EmptyString => false
  | String c rest => is_alnum c && username_tail rest
  end.

(** * Properties *)

(** ** Coercions *)

Section Coercions.
Context `{GoLib}.

Lemma percent_free_append (s1 s2 : string) :
  percent_free (s1 +:+ s2) = percent_free s1 && percent_free s2.
Proof.
  induction s1 as [| c s1 IH]; [reflexivity |].
  change (String c s1 +:+ s2) with (String c (s1 +:+ s2)). simpl.
  rewrite IH, andb_assoc. reflexivity.
Qed.

Lemma Sprintf0_plain (format : string) :
  percent_free format = true -> Sprintf0 format = format.
Proof. unfold Sprintf0. intros ->. reflexivity. Qed.

(** C3. Boolean coercion: a boolean is returned as it is, whatever the trim
    setting; a string, trimmed first when trimming is on, gives true for
    "true" and "on", false for "false" and "off", and otherwise the error
    "field must be true or false"; a value of any other type gives the
    error "Cannot convert type T to bool", T being its type. *)
Theorem ensureBool_spec :
  (forall (b trim : bool), ensureBool (VBool b) trim = (VBool b, None)) /\
  (forall (s : string) (trim : bool),
     let str := if trim then TrimSpace s else s in
     ensureBool (VString s) trim =
       if bool_decide (str = "true" \/ str = "on") then (VBool true, None)
       else if bool_decide (str = "false" \/ str = "off") then (VBool false, None)
       else (VNil, Some (New "field must be true or false"))) /\
  (forall (v : value) (trim : bool),
     is_bool v = false -> is_string v = false ->
     ensureBool v trim =
       (VNil, Some (New ("Cannot convert type " +:+ TypeOf v +:+ " to bool")))).
Proof.
  split; [reflexivity | split].
  - intros s trim str. unfold ensureBool. fold str.
    destruct (String.eqb_spec str "true") as [-> | Ht]; [reflexivity |].
    destruct (String.eqb_spec str "on") as [-> | Ho]; [reflexivity |].
    rewrite (bool_decide_eq_false_2 (str = "true" \/ str = "on")) by tauto.
    destruct (String.eqb_spec str "false") as [-> | Hf]; [reflexivity |].
    destruct (String.eqb_spec str "off") as [-> | Hoff]; [reflexivity |].
    rewrite (bool_decide_eq_false_2 (str = "false" \/ str = "off")) by tauto.
    reflexivity.
  - intros v trim Hb Hs. destruct v; try discriminate; reflexivity.
Qed.

(** C4. String coercion: a string is returned trimmed when trimming is on
    and as it is when trimming is off, without error; a value of any other
    type gives a type-mismatch error and no value. *)
Theorem ensureString_spec :
  (forall (s : string) (trim : bool),
     ensureString (VString s) trim =
       (VString (if trim then TrimSpace s else s), None)) /\
  (forall (v : value) (trim : bool),
     is_string v = false ->
     ensureString v trim =
       (VNil, Some (New ("Cannot convert type " +:+ TypeOf v +:+ " to string")))).
Proof.
  split.
  - intros s []; reflexivity.
  - intros v trim Hs. destruct v; try discriminate; reflexivity.
Qed.

(** C9. Without trimming, the strict and the earlier string coercion give
    the same result on every string; on every other value the strict one
    fails with a type-mismatch error and the earlier one returns the value
    in its default format; so the two agree exactly on the strings. *)
Theorem ensureString_legacy_agreement :
  (forall s : string,
     ensureString (VString s) false = (VString s, None) /\
     ensureString_legacy (VString s) = (VString s, None)) /\
  (forall v : value,
     is_string v = false ->
     ensureString v false =
       (VNil, Some (New ("Cannot convert type " +:+ TypeOf v +:+ " to string"))) /\
     ensureString_legacy v = (VString (Sprint_v v), None)) /\
  (forall v : value,
     ensureString v false = ensureString_legacy v <-> is_string v = true).
Proof.
  split; [| split].
  - intros s. split; reflexivity.
  - intros v Hs. destruct v; try discriminate; split; reflexivity.
  - intros v. destruct v; simpl; split; intros Heq;
      try reflexivity; try discriminate.
Qed.

End Coercions.

Lemma ensureBool_spec_witness :
  ensureBool (H := go_ref) (VOther "forms.dummyStruct" "{}") true =
    (VNil, Some (New "Cannot convert type forms.dummyStruct to bool")).
Proof.
  apply (proj2 (proj2 (ensureBool_spec (H := go_ref)))); reflexivity.
Defined.

Lemma ensureString_spec_witness :
  ensureString (H := go_ref) (VOther "forms.dummyStruct" "{}") false =
    (VNil, Some (New "Cannot convert type forms.dummyStruct to string")).
Proof.
  apply (proj2 (ensureString_spec (H := go_ref))); reflexivity.
Defined.

Lemma ensureString_legacy_agreement_witness :
  ensureString (H := go_ref) (VBool true) false =
    (VNil, Some (New "Cannot convert type bool to string")) /\
  ensureString_legacy (H := go_ref) (VBool true) = (VString "true", None).
Proof.
  apply (proj1 (proj2 (ensureString_legacy_agreement (H := go_ref))));
    reflexivity.
Defined.

(** ** Regular expressions: the matcher decides the language *)

Section Regex.

Lemma append_empty_r (s : string) : s +:+ "" = s.
Proof. induction s as [| c s IH]; [reflexivity | exact (f_equal (String c) IH)]. Qed.

Lemma append_empty_l (s : string) : "" +:+ s = s.
Proof. reflexivity. Qed.

Lemma append_cons c (s1 s2 : string) :
  String c s1 +:+ s2 = String c (s1 +:+ s2).
Proof. reflexivity. Qed.

Lemma append_is_empty (s1 s2 : string) :
  s1 +:+ s2 = "" -> s1 = "" /\ s2 = "".
Proof.
  destruct s1; [rewrite append_empty_l; auto | rewrite append_cons; discriminate].
Qed.

Lemma lang_eps_inv (s : string) : lang Eps s -> s = "".
Proof. inversion 1; reflexivity. Qed.

Lemma lang_void_inv (s : string) : ~ lang Void s.
Proof. inversion 1. Qed.

Lemma lang_class_inv p (s : string) :
  lang (Class p) s -> exists c, s = String c "" /\ p c = true.
Proof. inversion 1; subst; eauto. Qed.

Lemma lang_cat_inv r1 r2 (s : string) :
  lang (Cat r1 r2) s ->
  exists s1 s2, s = s1 +:+ s2 /\ lang r1 s1 /\ lang r2 s2.
Proof. inversion 1; subst; eauto. Qed.

Lemma lang_alt_inv r1 r2 (s : string) :
  lang (Alt r1 r2) s -> lang r1 s \/ lang r2 s.
Proof. inversion 1; subst; auto. Qed.

(** A non-empty word of a starred language starts with a non-empty word of
    the language. *)
Lemma lang_star_cons_inv r c (s : string) :
  lang (Star r) (String c s) ->
  exists s1 s2, s = s1 +:+ s2 /\ lang r (String c s1) /\ lang (Star r) s2.
Proof.
  intros Hl. remember (Star r) as r' eqn:Er. remember (String c s) as w eqn:Ew.
  revert s Ew. induction Hl as [| | | | | | r0 s1 s2 H1 _ H2 IH2]; try discriminate.
  injection Er as ->. intros s Ew.
  destruct s1 as [| c1 s1].
  - rewrite append_empty_l in Ew. apply IH2; [reflexivity | exact Ew].
  - rewrite append_cons in Ew. injection Ew as -> <-. eauto.
Qed.

Lemma nullable_lang r : nullable r = true <-> lang r "".
Proof.
  induction r as [| | p | r1 IH1 r2 IH2 | r1 IH1 r2 IH2 | r IH]; simpl.
  - split; [discriminate | intros Hl; destruct (lang_void_inv _ Hl)].
  - split; [constructor | reflexivity].
  - split; [discriminate |].
    intros Hl. apply lang_class_inv in Hl as (c & Hc & _). discriminate.
  - rewrite andb_true_iff, IH1, IH2. split.
    + intros [H1 H2]. exact (lang_cat _ _ "" "" H1 H2).
    + intros Hl. apply lang_cat_inv in Hl as (s1 & s2 & Hs & H1 & H2).
      symmetry in Hs. apply append_is_empty in Hs as [-> ->]. auto.
  - rewrite orb_true_iff, IH1, IH2. split.
    + intros [Hl | Hl]; [apply lang_alt_l | apply lang_alt_r]; exact Hl.
    + apply lang_alt_inv.
  - split; [constructor | reflexivity].
Qed.

Lemma deriv_lang c r : forall s, lang (deriv c r) s <-> lang r (String c s).
Proof.
  induction r as [| | p | r1 IH1 r2 IH2 | r1 IH1 r2 IH2 | r IH]; intros s; simpl.
  - split; intros Hl; destruct (lang_void_inv _ Hl).
  - split; intros Hl; [destruct (lang_void_inv _ Hl) |].
    apply lang_eps_inv in Hl. discriminate.
  - destruct (p c) eqn:Hp; split; intros Hl.
    + apply lang_eps_inv in Hl as ->. constructor; exact Hp.
    + apply lang_class_inv in Hl as (c' & Hc & _). injection Hc as -> ->.
      constructor.
    + destruct (lang_void_inv _ Hl).
    + apply lang_class_inv in Hl as (c' & Hc & Hp'). injection Hc as -> ->.
      congruence.
  - assert (Hhead : forall s, lang (Cat (deriv c r1) r2) s ->
                              lang (Cat r1 r2) (String c s)).
    { intros w Hl. apply lang_cat_inv in Hl as (s1 & s2 & -> & H1 & H2).
      apply IH1 in H1. exact (lang_cat _ _ (String c s1) s2 H1 H2). }
    assert (Hsplit : lang (Cat r1 r2) (String c s) ->
              lang (Cat (deriv c r1) r2) s \/
              (nullable r1 = true /\ lang (deriv c r2) s)).
    { intros Hl. apply lang_cat_inv in Hl as (s1 & s2 & Hs & H1 & H2).
      destruct s1 as [| c1 s1];
        [rewrite append_empty_l in Hs | rewrite append_cons in Hs].
      - right. subst s2. split; [apply nullable_lang; exact H1 |].
        apply IH2; exact H2.
      - injection Hs as <- ->. left. apply lang_cat; [apply IH1 |]; assumption. }
    destruct (nullable r1) eqn:Hn; split; intros Hl.
    + apply lang_alt_inv in Hl as [Hl | Hl]; [auto |].
      apply IH2 in Hl. apply nullable_lang in Hn.
      exact (lang_cat _ _ "" (String c s) Hn Hl).
    + destruct (Hsplit Hl) as [Hd | [_ Hd]];
        [apply lang_alt_l | apply lang_alt_r]; exact Hd.
    + auto.
    + destruct (Hsplit Hl) as [Hd | [Hd _]]; [exact Hd | discriminate].
  - split; intros Hl.
    + apply lang_alt_inv in Hl as [Hl | Hl];
        [apply lang_alt_l, IH1 | apply lang_alt_r, IH2]; exact Hl.
    + apply lang_alt_inv in Hl as [Hl | Hl];
        [apply lang_alt_l, IH1 | apply lang_alt_r, IH2]; exact Hl.
  - split; intros Hl.
    + apply lang_cat_inv in Hl as (s1 & s2 & -> & H1 & H2).
      apply IH in H1. exact (lang_star_app _ (String c s1) s2 H1 H2).
    + apply lang_star_cons_inv in Hl as (s1 & s2 & -> & H1 & H2).
      apply lang_cat; [apply IH |]; assumption.
Qed.

Lemma full_match_lang (s : string) : forall r, full_match r s = true <-> lang r s.
Proof.
  induction s as [| c s IH]; intros r; simpl.
  - apply nullable_lang.
  - rewrite IH. apply deriv_lang.
Qed.

Lemma lang_star_class p (s : string) :
  lang (Star (Class p)) s <->
  (fix all s := match s with
                | EmptyString => true
                | String c rest => p c && all rest
                end) s = true.
Proof.
  induction s as [| c s IH].
  - split; [reflexivity | constructor].
  - rewrite andb_true_iff, <- IH. split.
    + intros Hl. apply lang_star_cons_inv in Hl as (s1 & s2 & -> & H1 & H2).
      apply lang_class_inv in H1 as (c' & Hc & Hp). injection Hc as -> ->.
      split; [exact Hp | exact H2].
    + intros [Hp Hl].
      exact (lang_star_app _ (String c "") s (lang_class p c Hp) Hl).
Qed.

Lemma lang_digits (s : string) :
  lang (Star (Class is_digit)) s <-> all_digits s = true.
Proof. apply lang_star_class. Qed.

Lemma numberRx_lang (s : string) :
  lang (body numberRx) s <-> numeric_shape s = true.
Proof.
  simpl. split.
  - intros Hl. apply lang_cat_inv in Hl as (s1 & s2 & -> & H1 & H2).
    apply lang_digits in H2.
    apply lang_alt_inv in H1 as [H1 | H1].
    + apply lang_class_inv in H1 as (c & -> & Hc).
      rewrite append_cons, append_empty_l.
      simpl. rewrite Ascii.eqb_sym, Hc. exact H2.
    + apply lang_eps_inv in H1 as ->. rewrite append_empty_l.
      destruct s2 as [| c s2]; [reflexivity |]. simpl.
      destruct (Ascii.eqb_spec c "-") as [-> | _]; [| exact H2].
      simpl in H2. discriminate.
  - intros Hs. destruct s as [| c s].
    + exact (lang_cat _ _ "" "" (lang_alt_r _ _ _ lang_eps) (lang_star_nil _)).
    + unfold numeric_shape in Hs.
      destruct (Ascii.eqb_spec c "-") as [-> | _].
      * apply lang_digits in Hs.
        exact (lang_cat _ _ "-" s
                 (lang_alt_l _ _ _ (lang_class _ "-"%char eq_refl)) Hs).
      * apply lang_digits in Hs.
        exact (lang_cat _ _ "" (String c s) (lang_alt_r _ _ _ lang_eps) Hs).
Qed.

(** With both anchors, [MatchString] is membership of the whole string in
    the language of the body. *)
Lemma MatchString_anchored rx (s : string) :
  begin_text rx = true -> end_text rx = true ->
  MatchString rx s = true <-> lang (body rx) s.
Proof.
  intros Hb He. unfold MatchString. rewrite Hb, He, full_match_lang. split.
  - intros Hl. apply lang_cat_inv in Hl as (s1 & s2 & -> & H1 & H2).
    apply lang_eps_inv in H1 as ->.
    apply lang_cat_inv in H2 as (s3 & s4 & -> & H3 & H4).
    apply lang_eps_inv in H4 as ->. rewrite append_empty_r. exact H3.
  - intros Hl. rewrite <- (append_empty_r s).
    exact (lang_cat _ _ "" (s +:+ "") lang_eps (lang_cat _ _ s "" Hl lang_eps)).
Qed.

Lemma MatchString_numberRx (s : string) :
  MatchString numberRx s = numeric_shape s.
Proof.
  apply eq_true_iff_eq.
  rewrite (MatchString_anchored numberRx s eq_refl eq_refl).
  apply numberRx_lang.
Qed.

End Regex.

(** ** Validators *)

Section Validators.
Context `{GoLib}.

Lemma numeric_shape_iff (s : string) :
  numeric_shape s = true <->
  exists sign digits : string,
    s = sign +:+ digits /\ (sign = "" \/ sign = "-") /\ all_digits digits = true.
Proof.
  split.
  - intros Hs. destruct s as [| c s]; [exists "", ""; auto |].
    unfold numeric_shape in Hs.
    destruct (Ascii.eqb_spec c "-") as [-> | _].
    + exists "-", s. auto.
    + exists "", (String c s). auto.
  - intros (sign & digits & -> & [-> | ->] & Hd).
    + rewrite append_empty_l. destruct digits as [| c d]; [reflexivity |].
      unfold numeric_shape.
      destruct (Ascii.eqb_spec c "-") as [-> | _]; [| exact Hd].
      simpl in Hd. discriminate.
    + exact Hd.
Qed.

Lemma ValidateRegex_string rx message (s : string) :
  ValidateRegex rx message (VString s) =
    if MatchString rx s then None else Some (Errorf0 message).
Proof. unfold ValidateRegex. destruct (MatchString rx s); reflexivity. Qed.

(** C10. [ValidateNumbers] passes a string exactly when it is an optional
    ['-'] followed by zero or more decimal digits, so it passes the empty
    string and the string "-"; on any other string it fails with "Must be
    numbers only", and on a value that is not a string with "Field must be
    string". *)
Theorem ValidateNumbers_spec :
  (forall s : string,
     ValidateNumbers (VString s) = None <->
     exists sign digits : string,
       s = sign +:+ digits /\ (sign = "" \/ sign = "-") /\
       all_digits digits = true) /\
  (forall s : string,
     ValidateNumbers (VString s) = None \/
     ValidateNumbers (VString s) = Some (New "Must be numbers only")) /\
  ValidateNumbers (VString "") = None /\
  ValidateNumbers (VString "-") = None /\
  (forall v : value,
     is_string v = false ->
     ValidateNumbers v = Some (New "Field must be string")).
Proof.
  assert (Hstr : forall s, ValidateNumbers (VString s) =
            if numeric_shape s then None else Some (New "Must be numbers only")).
  { intros s. unfold ValidateNumbers.
    rewrite ValidateRegex_string, MatchString_numberRx. reflexivity. }
  repeat split.
  - rewrite Hstr, <- numeric_shape_iff.
    destruct (numeric_shape s); [reflexivity | discriminate].
  - rewrite Hstr, <- numeric_shape_iff.
    intros ->. reflexivity.
  - intros s. rewrite Hstr. destruct (numeric_shape s); auto.
  - intros v Hv. destruct v; try discriminate; reflexivity.
Qed.

(** The messages of the delegates on [s], in their order. *)
Lemma orChain_loop_all_fail (validators : list Validator) (s : value) :
  forall (errors : list string) (calls : nat),
  Forall (fun vd : Validator => vd s <> None) validators ->
  orChain_loop validators s errors calls =
    (Some (errors ++ omap (fun vd : Validator => Error <$> vd s) validators)%list,
     (calls + length validators)%nat).
Proof.
  induction validators as [| vd rest IH]; intros errors calls Hall; simpl.
  - rewrite app_nil_r, Nat.add_0_r. reflexivity.
  - apply Forall_cons in Hall as [Hvd Hrest].
    destruct (vd s) as [err |] eqn:Evd; [| contradiction].
    rewrite IH by exact Hrest. simpl.
    rewrite <- app_assoc, Nat.add_succ_r. reflexivity.
Qed.

Lemma orChain_loop_first_pass (before after : list Validator)
    (vd : Validator) (s : value) :
  forall (errors : list string) (calls : nat),
  Forall (fun vd : Validator => vd s <> None) before ->
  vd s = None ->
  orChain_loop (before ++ vd :: after) s errors calls =
    (None, S (calls + length before)).
Proof.
  induction before as [| vd0 rest IH]; intros errors calls Hall Hvd; simpl.
  - rewrite Hvd, Nat.add_0_r. reflexivity.
  - apply Forall_cons in Hall as [Hvd0 Hrest].
    destruct (vd0 s) as [err |] eqn:Evd; [| contradiction].
    rewrite IH by assumption. rewrite Nat.add_succ_r. reflexivity.
Qed.

(** Either every delegate fails on [s], or there is a first one that
    passes. *)
Lemma first_pass_or_all_fail (validators : list Validator) (s : value) :
  Forall (fun vd : Validator => vd s <> None) validators \/
  exists before vd after,
    validators = (before ++ vd :: after)%list /\
    Forall (fun vd : Validator => vd s <> None) before /\ vd s = None.
Proof.
  induction validators as [| vd rest IH]; [left; constructor |].
  destruct (vd s) as [err |] eqn:Evd.
  - destruct IH as [Hall | (before & vd' & after & -> & Hb & Hp)].
    + left. constructor; [congruence | exact Hall].
    + right. exists (vd :: before), vd', after.
      split; [reflexivity |]. split; [| exact Hp].
      constructor; [congruence | exact Hb].
  - right. exists [], vd, rest. repeat split; [constructor | exact Evd].
Qed.

(** The validator of [ValidateOrChain]: it passes without delegates; with
    delegates it passes exactly when one of them passes, and then calls the
    delegates up to the first that passes and no other; when all fail it
    calls them all and returns the error that [fmt.Errorf] makes of their
    messages joined by " or ", which has this very text when the text has
    no ['%']. *)
Lemma ValidateOrChain_spec (validators : list Validator) (s : value) :
  (validators = [] -> ValidateOrChain validators s = None) /\
  (ValidateOrChain validators s = None <->
     validators = [] \/ exists vd, vd ∈ validators /\ vd s = None) /\
  (forall before vd after,
     validators = (before ++ vd :: after)%list ->
     Forall (fun vd : Validator => vd s <> None) before -> vd s = None ->
     ValidateOrChain_calls validators s = S (length before)) /\
  (validators <> [] ->
   Forall (fun vd : Validator => vd s <> None) validators ->
   let joined :=
     Join (omap (fun vd : Validator => Error <$> vd s) validators) " or " in
   ValidateOrChain validators s = Some (Errorf0 joined) /\
   ValidateOrChain_calls validators s = length validators /\
   (percent_free joined = true ->
    ValidateOrChain validators s = Some (New joined))).
Proof.
  assert (Hfail : validators <> [] ->
    Forall (fun vd : Validator => vd s <> None) validators ->
    ValidateOrChain validators s =
      Some (Errorf0 (Join (omap (fun vd : Validator => Error <$> vd s)
                             validators) " or "))).
  { intros Hne Hall. unfold ValidateOrChain.
    rewrite orChain_loop_all_fail by exact Hall. simpl.
    destruct validators as [| vd rest]; [contradiction |].
    apply Forall_cons in Hall as [Hvd _]. simpl.
    destruct (vd s) as [err |]; [reflexivity | contradiction]. }
  split; [intros ->; reflexivity |]. split; [| split].
  - split.
    + intros Hnil.
      destruct (first_pass_or_all_fail validators s)
        as [Hall | (before & vd & after & -> & Hb & Hp)].
      * destruct validators as [| vd rest]; [left; reflexivity |].
        rewrite Hfail in Hnil by (discriminate || exact Hall). discriminate.
      * right. exists vd. split; [| exact Hp].
        apply elem_of_app. right. apply list_elem_of_here.
    + intros [-> | (vd & Hin & Hp)]; [reflexivity |].
      destruct (first_pass_or_all_fail validators s)
        as [Hall | (before & vd' & after & -> & Hb & Hp')].
      * rewrite Forall_forall in Hall. destruct (Hall vd Hin Hp).
      * unfold ValidateOrChain.
        rewrite orChain_loop_first_pass by assumption. reflexivity.
  - intros before vd after -> Hb Hp. unfold ValidateOrChain_calls.
    rewrite orChain_loop_first_pass by assumption. reflexivity.
  - intros Hne Hall joined. split; [exact (Hfail Hne Hall) |]. split.
    + unfold ValidateOrChain_calls.
      rewrite orChain_loop_all_fail by exact Hall. reflexivity.
    + intros Hfree. rewrite (Hfail Hne Hall). unfold Errorf0.
      fold joined. rewrite Sprintf0_plain by exact Hfree. reflexivity.
Qed.

End Validators.

Lemma ValidateNumbers_spec_witness :
  ValidateNumbers (H := go_ref) (VBool true) = Some (New "Field must be string").
Proof.
  apply (proj2 (proj2 (proj2 (proj2 (ValidateNumbers_spec (H := go_ref))))));
    reflexivity.
Defined.

(** C7. In a chain whose delegate fails with a message that holds a ['%'],
    the error of the chain does not have the message of the delegate: the
    joined messages are given to [fmt.Errorf] as a format.  Here the only
    delegate fails with "hi%d" and the chain with "hi%!d(MISSING)". *)
Theorem ValidateOrChain_formats_messages :
  let delegate : Validator := ValidateFail (H := go_ref) "hi%%d" in
  delegate VNil = Some (New "hi%d") /\
  Join ["hi%d"] " or " = "hi%d" /\
  ValidateOrChain (H := go_ref) [delegate] VNil = Some (New "hi%!d(MISSING)").
Proof. repeat split. Qed.

(** ** The definition application engine *)

Section Engine.
Context `{GoLib}.

Lemma inList_elem_of (l : list string) (k : string) :
  inList l k = true <-> k ∈ l.
Proof.
  induction l as [| v rest IH]; simpl.
  - split; [discriminate | intros Hin; inversion Hin].
  - destruct (String.eqb_spec v k) as [-> | Hne].
    + split; [intros _; apply list_elem_of_here | reflexivity].
    + rewrite IH. split.
      * intros Hin. apply list_elem_of_further; exact Hin.
      * intros Hin. apply elem_of_cons in Hin as [-> | Hin];
          [contradiction | exact Hin].
Qed.

Lemma append_error_lookup (errs : gmap string (list error)) (k : string)
    (err : error) :
  append_error errs k err !! k = Some (default [] (errs !! k) ++ [err])%list.
Proof. unfold append_error. apply lookup_insert_eq. Qed.

Lemma append_error_lookup_ne (errs : gmap string (list error))
    (k k' : string) (err : error) :
  k <> k' -> append_error errs k err !! k' = errs !! k'.
Proof. intros Hne. unfold append_error. apply lookup_insert_ne; exact Hne. Qed.

Lemma check_validations_lookup_ne (validations : list Validator)
    (k k' : string) (app : gmap string value) :
  k <> k' ->
  forall (i : nat) (errs : gmap string (list error)) (cs : list Call),
  (check_validations validations i k app errs cs).1 !! k' = errs !! k'.
Proof.
  intros Hne. induction validations as [| vd rest IH]; intros i errs cs; simpl.
  - reflexivity.
  - destruct (vd (index app k)); rewrite IH; [| reflexivity].
    apply append_error_lookup_ne; exact Hne.
Qed.

(** The loop over the validators calls each of them once, in order, on
    [applied[k]]. *)
Lemma check_validations_calls (validations : list Validator) (k : string)
    (app : gmap string value) :
  forall (i : nat) (errs : gmap string (list error)) (cs : list Call),
  (check_validations validations i k app errs cs).2 =
    (cs ++ imap (fun j _ => {| call_key := k; call_index := i + j;
                               call_arg := index app k |}) validations)%list.
Proof.
  induction validations as [| vd rest IH]; intros i errs cs.
  - simpl. rewrite app_nil_r. reflexivity.
  - cbn [check_validations].
    assert (Hrest : forall errs',
      (check_validations rest (S i) k app errs'
         (cs ++ [{| call_key := k; call_index := i;
                    call_arg := index app k |}])).2 =
      (cs ++ imap (fun j _ => {| call_key := k; call_index := i + j;
                                 call_arg := index app k |}) (vd :: rest))%list).
    { intros errs'. rewrite IH, <- app_assoc. f_equal.
      change (imap ?f (vd :: rest)) with (f 0%nat vd :: imap (f ∘ S) rest).
      change ([?c] ++ ?l)%list with (c :: l). f_equal; [f_equal; lia |].
      apply imap_ext. intros j vd' _. simpl. f_equal. lia. }
    destruct (vd (index app k)); apply Hrest.
Qed.

Lemma validation_errors_cons (vd : Validator) (rest : list Validator)
    (c : value) :
  validation_errors (vd :: rest) c =
    match vd c with
    | Some err => err :: validation_errors rest c
    | None => validation_errors rest c
    end.
Proof. unfold validation_errors. simpl. destruct (vd c); reflexivity. Qed.

Lemma check_validations_lookup (validations : list Validator) (k : string)
    (app : gmap string value) :
  forall (i : nat) (errs : gmap string (list error)) (cs : list Call),
  (check_validations validations i k app errs cs).1 !! k =
    match validation_errors validations (index app k) with
    | [] => errs !! k
    | l => Some (default [] (errs !! k) ++ l)%list
    end.
Proof.
  induction validations as [| vd rest IH]; intros i errs cs.
  - reflexivity.
  - rewrite validation_errors_cons. simpl check_validations.
    destruct (vd (index app k)) as [err |]; rewrite IH; [| reflexivity].
    rewrite append_error_lookup.
    destruct (validation_errors rest (index app k)); simpl.
    + reflexivity.
    + rewrite <- app_assoc. reflexivity.
Qed.

(** The switch on the field type changes [applied] at [k] only, and in the
    same way whatever the map. *)
Lemma coerce_field_frame (fieldDef : FieldDefinition) (k : string)
    (v : value) (app : gmap string value) :
  coerce_field fieldDef k v app =
    (match (coerce_field fieldDef k v ∅).1 !! k with
     | Some r => <[k := r]> app
     | None => app
     end,
     (coerce_field fieldDef k v ∅).2).
Proof.
  unfold coerce_field.
  destruct (String.eqb (FieldType fieldDef) TypeBool).
  { destruct (ensureBool v _) as [r err]. simpl.
    rewrite lookup_insert_eq. reflexivity. }
  destruct (String.eqb (FieldType fieldDef) TypeString).
  { destruct (ensureString v _) as [r err]. simpl.
    rewrite lookup_insert_eq. reflexivity. }
  destruct (String.eqb (FieldType fieldDef) TypeUUID).
  { destruct (ensureUUID v _) as [r err]. simpl.
    rewrite lookup_insert_eq. reflexivity. }
  simpl. rewrite lookup_empty. reflexivity.
Qed.

(** One turn of the loop leaves the other keys as they are. *)
Lemma apply_entry_lookup_ne (def : Definition_) (permittedFields : list string)
    (options : ApplyOptions) (st : State) (k k' : string) (v : value) :
  k <> k' ->
  applied (apply_entry def permittedFields options st k v) !! k' =
    applied st !! k' /\
  errors (apply_entry def permittedFields options st k v) !! k' =
    errors st !! k'.
Proof.
  intros Hne. unfold apply_entry.
  destruct (inList permittedFields k); simpl.
  - destruct (Fields def !! k) as [fieldDef |]; [| auto].
    rewrite coerce_field_frame.
    destruct (coerce_field fieldDef k v ∅) as [app0 err]. simpl.
    assert (Happ : match app0 !! k with
                   | Some r => <[k := r]> (applied st)
                   | None => applied st
                   end !! k' = applied st !! k').
    { destruct (app0 !! k); [apply lookup_insert_ne; exact Hne | reflexivity]. }
    destruct err as [e |]; simpl.
    + split; [exact Happ | apply append_error_lookup_ne; exact Hne].
    + destruct (check_validations _ _ _ _ _ _) as [errs' cs'] eqn:Ecv. simpl.
      split; [exact Happ |].
      apply (f_equal fst) in Ecv. simpl in Ecv. subst errs'.
      apply check_validations_lookup_ne; exact Hne.
  - destruct (String.eqb (ErrorOnPermission options) MissingErrorWarn);
      [simpl; auto |].
    destruct (String.eqb (ErrorOnPermission options) MissingErrorFail);
      [simpl | auto].
    split; [reflexivity | apply append_error_lookup_ne; exact Hne].
Qed.

(** One turn of the loop, at a key not yet written. *)
Lemma apply_entry_lookup (def : Definition_) (permittedFields : list string)
    (options : ApplyOptions) (st : State) (k : string) (v : value) :
  applied st !! k = None -> errors st !! k = None ->
  applied (apply_entry def permittedFields options st k v) !! k =
    applied_entry def permittedFields k v /\
  errors (apply_entry def permittedFields options st k v) !! k =
    as_entry (errors_entry def permittedFields options k v).
Proof.
  intros Happ Herr. unfold apply_entry, applied_entry, errors_entry.
  destruct (inList permittedFields k); simpl.
  - destruct (Fields def !! k) as [fieldDef |]; [| auto].
    unfold coercion_error, coercion_value. rewrite coerce_field_frame.
    destruct (coerce_field fieldDef k v ∅) as [app0 err]. simpl.
    assert (Hk : match app0 !! k with
                 | Some r => <[k := r]> (applied st)
                 | None => applied st
                 end !! k = app0 !! k).
    { destruct (app0 !! k); [apply lookup_insert_eq | exact Happ]. }
    destruct err as [e |]; simpl.
    + split; [exact Hk |]. rewrite append_error_lookup, Herr. reflexivity.
    + destruct (check_validations _ _ _ _ _ _) as [errs' cs'] eqn:Ecv. simpl.
      split; [exact Hk |].
      apply (f_equal fst) in Ecv. simpl in Ecv. subst errs'.
      rewrite check_validations_lookup, Herr. unfold index. rewrite Hk.
      destruct (validation_errors _ _); reflexivity.
  - destruct (String.eqb (ErrorOnPermission options) MissingErrorWarn);
      [simpl; auto |].
    destruct (String.eqb (ErrorOnPermission options) MissingErrorFail);
      [simpl | auto].
    split; [exact Happ |]. rewrite append_error_lookup, Herr. reflexivity.
Qed.

(** The loop over entries with distinct keys, from a state in which none of
    these keys is written. *)
Lemma apply_entries_lookup (def : Definition_) (permittedFields : list string)
    (options : ApplyOptions) (entries : list (string * value)) :
  NoDup entries.*1 ->
  forall st : State,
  (forall k, k ∈ entries.*1 ->
     applied st !! k = None /\ errors st !! k = None) ->
  forall k : string,
  applied (apply_entries def permittedFields options entries st) !! k =
    match (list_to_map entries : gmap string value) !! k with
    | Some v => applied_entry def permittedFields k v
    | None => applied st !! k
    end /\
  errors (apply_entries def permittedFields options entries st) !! k =
    match (list_to_map entries : gmap string value) !! k with
    | Some v => as_entry (errors_entry def permittedFields options k v)
    | None => errors st !! k
    end.
Proof.
  induction entries as [| [k0 v0] rest IH]; intros Hnd st Hfresh k.
  - simpl. rewrite lookup_empty. auto.
  - rewrite fmap_cons in Hnd. apply NoDup_cons in Hnd as [Hk0 Hnd].
    change (apply_entries def permittedFields options ((k0, v0) :: rest) st)
      with (apply_entries def permittedFields options rest
              (apply_entry def permittedFields options st k0 v0)).
    assert (Hfresh' : forall k, k ∈ rest.*1 ->
      applied (apply_entry def permittedFields options st k0 v0) !! k = None /\
      errors (apply_entry def permittedFields options st k0 v0) !! k = None).
    { intros k' Hin. assert (Hne : k0 <> k') by (intros ->; contradiction).
      destruct (apply_entry_lookup_ne def permittedFields options st k0 k' v0 Hne)
        as [-> ->].
      apply Hfresh. rewrite fmap_cons. apply list_elem_of_further; exact Hin. }
    specialize (IH Hnd _ Hfresh' k).
    simpl list_to_map.
    destruct (decide (k0 = k)) as [<- | Hne].
    + rewrite lookup_insert_eq.
      rewrite (not_elem_of_list_to_map_1 rest k0 Hk0) in IH.
      destruct (Hfresh k0) as [Ha He]; [rewrite fmap_cons; apply list_elem_of_here |].
      destruct (apply_entry_lookup def permittedFields options st k0 v0 Ha He)
        as [Ha' He'].
      destruct IH as [-> ->]. auto.
    + rewrite lookup_insert_ne by exact Hne.
      destruct (apply_entry_lookup_ne def permittedFields options st k0 k v0 Hne)
        as [Ha' He'].
      rewrite Ha', He' in IH. exact IH.
Qed.

(** Whatever the order in which the entries of [m] are visited, a call with
    permitted fields returns the two maps [coerced_of] and [errors_of], and
    no error. *)
Lemma ApplyDefinition_range_maps (def : Definition_)
    (permittedFields : list string) (m : gmap string value)
    (entries : list (string * value)) (options : ApplyOptions) :
  permittedFields <> [] ->
  entries ≡ₚ map_to_list m ->
  coerced (ApplyDefinition_range def permittedFields entries options) =
    Some (coerced_of def permittedFields m) /\
  fieldErrors (ApplyDefinition_range def permittedFields entries options) =
    Some (errors_of def permittedFields options m) /\
  topError (ApplyDefinition_range def permittedFields entries options) = None.
Proof.
  intros Hne Hperm. unfold ApplyDefinition_range.
  destruct permittedFields as [| p ps]; [contradiction |]. simpl.
  assert (Hnd : NoDup entries.*1).
  { rewrite Hperm. apply NoDup_fst_map_to_list. }
  assert (Hm : (list_to_map entries : gmap string value) = m).
  { rewrite (list_to_map_proper entries (map_to_list m) Hnd Hperm).
    apply list_to_map_to_list. }
  pose proof (apply_entries_lookup def (p :: ps) options entries Hnd
                {| applied := ∅; errors := ∅; warnings := []; calls := [] |})
    as Hl.
  assert (Hfresh : forall k, k ∈ entries.*1 ->
            (∅ : gmap string value) !! k = None /\
            (∅ : gmap string (list error)) !! k = None).
  { intros k _. split; apply lookup_empty. }
  specialize (Hl Hfresh). rewrite Hm in Hl.
  repeat split; f_equal; apply map_eq; intros k; destruct (Hl k) as [Ha He].
  - rewrite Ha. unfold coerced_of. rewrite map_lookup_imap. simpl.
    destruct (m !! k); [reflexivity | apply lookup_empty].
  - rewrite He. unfold errors_of. rewrite map_lookup_imap. simpl.
    destruct (m !! k); [reflexivity | apply lookup_empty].
Qed.

Lemma ApplyDefinition_maps (def : Definition_) (permittedFields : list string)
    (m : gmap string value) (options : ApplyOptions) :
  permittedFields <> [] ->
  coerced (ApplyDefinition def permittedFields m options) =
    Some (coerced_of def permittedFields m) /\
  fieldErrors (ApplyDefinition def permittedFields m options) =
    Some (errors_of def permittedFields options m) /\
  topError (ApplyDefinition def permittedFields m options) = None.
Proof.
  intros Hne. apply ApplyDefinition_range_maps; [exact Hne | reflexivity].
Qed.

Lemma inList_ext (p1 p2 : list string) :
  (forall k, k ∈ p1 <-> k ∈ p2) -> forall k, inList p1 k = inList p2 k.
Proof.
  intros Hp k. apply eq_true_iff_eq. rewrite !inList_elem_of. apply Hp.
Qed.

Lemma coerced_of_lookup (def : Definition_) (permittedFields : list string)
    (m : gmap string value) (k : string) :
  coerced_of def permittedFields m !! k =
    m !! k ≫= applied_entry def permittedFields k.
Proof. unfold coerced_of. apply map_lookup_imap. Qed.

Lemma errors_of_lookup (def : Definition_) (permittedFields : list string)
    (options : ApplyOptions) (m : gmap string value) (k : string) :
  errors_of def permittedFields options m !! k =
    m !! k ≫= fun v => as_entry (errors_entry def permittedFields options k v).
Proof. unfold errors_of. apply map_lookup_imap. Qed.

(** The error map has no entry with an empty list. *)
Lemma errors_of_nonempty (def : Definition_) (permittedFields : list string)
    (options : ApplyOptions) (m : gmap string value) (k : string)
    (l : list error) :
  errors_of def permittedFields options m !! k = Some l -> l <> [].
Proof.
  rewrite errors_of_lookup. destruct (m !! k) as [v |]; [| discriminate].
  simpl. destruct (errors_entry _ _ _ _ _); [discriminate |].
  intros [= <-]. discriminate.
Qed.

(** The switch writes [applied[k]] exactly for the three known types. *)
Lemma coerce_field_stores (fieldDef : FieldDefinition) (k : string) (v : value) :
  is_Some ((coerce_field fieldDef k v ∅).1 !! k) <->
  FieldType fieldDef = TypeBool \/ FieldType fieldDef = TypeString \/
  FieldType fieldDef = TypeUUID.
Proof.
  unfold coerce_field.
  destruct (String.eqb_spec (FieldType fieldDef) TypeBool) as [-> | Hb].
  { destruct (ensureBool v _) as [r err]. simpl. rewrite lookup_insert_eq.
    split; [auto | eauto]. }
  destruct (String.eqb_spec (FieldType fieldDef) TypeString) as [-> | Hs].
  { destruct (ensureString v _) as [r err]. simpl. rewrite lookup_insert_eq.
    split; [auto | eauto]. }
  destruct (String.eqb_spec (FieldType fieldDef) TypeUUID) as [-> | Hu].
  { destruct (ensureUUID v _) as [r err]. simpl. rewrite lookup_insert_eq.
    split; [auto | eauto]. }
  simpl. rewrite lookup_empty. split.
  - intros [x Hx]. discriminate.
  - intros [Ht | [Ht | Ht]]; contradiction.
Qed.

(** The keys of the coerced map: the permitted keys of the input whose
    field has one of the three known types, whether the coercion succeeds
    or fails. *)
Lemma coerced_of_key (def : Definition_) (permittedFields : list string)
    (m : gmap string value) (k : string) :
  is_Some (coerced_of def permittedFields m !! k) <->
  exists v fieldDef,
    m !! k = Some v /\ k ∈ permittedFields /\ Fields def !! k = Some fieldDef /\
    (FieldType fieldDef = TypeBool \/ FieldType fieldDef = TypeString \/
     FieldType fieldDef = TypeUUID).
Proof.
  rewrite coerced_of_lookup. unfold applied_entry. split.
  - destruct (m !! k) as [v |]; simpl; [| intros [x Hx]; discriminate].
    destruct (inList permittedFields k) eqn:Hin; [| intros [x Hx]; discriminate].
    destruct (Fields def !! k) as [fieldDef |]; [| intros [x Hx]; discriminate].
    intros Hs. exists v, fieldDef. repeat split.
    + apply inList_elem_of; exact Hin.
    + apply (coerce_field_stores fieldDef k v); exact Hs.
  - intros (v & fieldDef & -> & Hin & -> & Ht). simpl.
    apply inList_elem_of in Hin. rewrite Hin.
    apply coerce_field_stores; exact Ht.
Qed.

Lemma coerce_field_ok_stores (fieldDef : FieldDefinition) (k : string)
    (v : value) :
  coercion_error fieldDef k v = None ->
  (coerce_field fieldDef k v ∅).1 !! k = Some (coercion_value fieldDef k v).
Proof.
  intros Hnone. unfold coercion_value, index.
  destruct ((coerce_field fieldDef k v ∅).1 !! k) as [r |] eqn:Hr;
    [reflexivity |].
  assert (Hs : ~ is_Some ((coerce_field fieldDef k v ∅).1 !! k)).
  { rewrite Hr. intros [x Hx]. discriminate. }
  rewrite coerce_field_stores in Hs.
  unfold coercion_error, coerce_field in Hnone.
  destruct (String.eqb_spec (FieldType fieldDef) TypeBool); [tauto |].
  destruct (String.eqb_spec (FieldType fieldDef) TypeString); [tauto |].
  destruct (String.eqb_spec (FieldType fieldDef) TypeUUID); [tauto |].
  discriminate.
Qed.

(** One turn of the loop adds the calls of its entry. *)
Lemma apply_entry_calls (def : Definition_) (permittedFields : list string)
    (options : ApplyOptions) (st : State) (k : string) (v : value) :
  calls (apply_entry def permittedFields options st k v) =
    (calls st ++ calls_entry def permittedFields k v)%list.
Proof.
  unfold apply_entry, calls_entry.
  destruct (inList permittedFields k); simpl.
  - destruct (Fields def !! k) as [fieldDef |]; [| now rewrite app_nil_r].
    pose proof (coerce_field_ok_stores fieldDef k v) as Hok.
    unfold coercion_error in *. rewrite coerce_field_frame.
    destruct (coerce_field fieldDef k v ∅) as [app0 err]. simpl in *.
    destruct err as [e |]; simpl; [now rewrite app_nil_r |].
    destruct (check_validations _ _ _ _ _ _) as [errs' cs'] eqn:Ecv. simpl.
    apply (f_equal snd) in Ecv. simpl in Ecv. subst cs'.
    rewrite check_validations_calls. f_equal.
    rewrite (Hok eq_refl). unfold index. rewrite lookup_insert_eq. reflexivity.
  - destruct (String.eqb (ErrorOnPermission options) MissingErrorWarn);
      [simpl; now rewrite app_nil_r |].
    destruct (String.eqb (ErrorOnPermission options) MissingErrorFail);
      simpl; now rewrite app_nil_r.
Qed.

Lemma apply_entries_calls (def : Definition_) (permittedFields : list string)
    (options : ApplyOptions) (entries : list (string * value)) :
  forall st : State,
  calls (apply_entries def permittedFields options entries st) =
    (calls st ++
     flat_map (fun kv => calls_entry def permittedFields kv.1 kv.2) entries)%list.
Proof.
  induction entries as [| [k0 v0] rest IH]; intros st.
  - simpl. now rewrite app_nil_r.
  - change (apply_entries def permittedFields options ((k0, v0) :: rest) st)
      with (apply_entries def permittedFields options rest
              (apply_entry def permittedFields options st k0 v0)).
    rewrite IH, apply_entry_calls, <- app_assoc. reflexivity.
Qed.

Lemma calls_entry_key (def : Definition_) (permittedFields : list string)
    (k : string) (v : value) (c : Call) :
  c ∈ calls_entry def permittedFields k v -> call_key c = k.
Proof.
  unfold calls_entry.
  destruct (inList permittedFields k); [| intros Hin; inversion Hin].
  destruct (Fields def !! k) as [fieldDef |]; [| intros Hin; inversion Hin].
  destruct (coercion_error fieldDef k v); [intros Hin; inversion Hin |].
  intros Hin. apply elem_of_lookup_imap in Hin as (i & vd & -> & _).
  reflexivity.
Qed.

Lemma calls_for_same (k : string) (cs : list Call) :
  (forall c, c ∈ cs -> call_key c = k) -> calls_for k cs = cs.
Proof.
  unfold calls_for. induction cs as [| c cs IH]; intros Hall; [reflexivity |].
  rewrite filter_cons_True by (apply Hall, list_elem_of_here).
  rewrite IH; [reflexivity |].
  intros c' Hin. apply Hall, list_elem_of_further, Hin.
Qed.

Lemma calls_for_other (k : string) (cs : list Call) :
  (forall c, c ∈ cs -> call_key c <> k) -> calls_for k cs = [].
Proof.
  unfold calls_for. induction cs as [| c cs IH]; intros Hall; [reflexivity |].
  rewrite filter_cons_False by (apply Hall, list_elem_of_here).
  apply IH. intros c' Hin. apply Hall, list_elem_of_further, Hin.
Qed.

(** Among the calls of a loop over entries with distinct keys, those for a
    key are the calls of the entry of this key. *)
Lemma calls_for_entries (def : Definition_) (permittedFields : list string)
    (entries : list (string * value)) (k : string) :
  NoDup entries.*1 ->
  calls_for k
    (flat_map (fun kv => calls_entry def permittedFields kv.1 kv.2) entries) =
    match (list_to_map entries : gmap string value) !! k with
    | Some v => calls_entry def permittedFields k v
    | None => []
    end.
Proof.
  induction entries as [| [k0 v0] rest IH]; intros Hnd.
  - simpl. rewrite lookup_empty. reflexivity.
  - rewrite fmap_cons in Hnd. apply NoDup_cons in Hnd as [Hk0 Hnd].
    simpl flat_map. simpl list_to_map.
    unfold calls_for in *. rewrite filter_app. fold (calls_for k).
    change (filter (fun c => call_key c = k)) with (calls_for k) in *.
    rewrite (IH Hnd).
    destruct (decide (k0 = k)) as [<- | Hne].
    + rewrite lookup_insert_eq, (not_elem_of_list_to_map_1 rest k0 Hk0).
      rewrite app_nil_r. apply calls_for_same.
      intros c. apply calls_entry_key.
    + rewrite lookup_insert_ne by exact Hne.
      rewrite calls_for_other; [reflexivity |].
      intros c Hin. apply calls_entry_key in Hin. congruence.
Qed.

(** The calls of validators of a whole call, for one key of the input. *)
Lemma ApplyDefinition_range_calls (def : Definition_)
    (permittedFields : list string) (m : gmap string value)
    (entries : list (string * value)) (options : ApplyOptions) (k : string) :
  permittedFields <> [] ->
  entries ≡ₚ map_to_list m ->
  calls_for k
    (validator_calls (ApplyDefinition_range def permittedFields entries options)) =
    match m !! k with
    | Some v => calls_entry def permittedFields k v
    | None => []
    end.
Proof.
  intros Hne Hperm. unfold ApplyDefinition_range.
  destruct permittedFields as [| p ps]; [contradiction |]. simpl.
  assert (Hnd : NoDup entries.*1).
  { rewrite Hperm. apply NoDup_fst_map_to_list. }
  assert (Hm : (list_to_map entries : gmap string value) = m).
  { rewrite (list_to_map_proper entries (map_to_list m) Hnd Hperm).
    apply list_to_map_to_list. }
  rewrite apply_entries_calls. simpl.
  rewrite (calls_for_entries def (p :: ps) entries k Hnd), Hm. reflexivity.
Qed.

(** C2. A call returns an error of its own exactly when the list of
    permitted fields is empty.  It then returns no coerced map and no error
    map, treats no entry of the input, and its error is "Must provide a
    list of permitted fields with one or more fields".  With a non-empty
    list its error is nil and both maps are returned. *)
Theorem ApplyDefinition_top_error (def : Definition_)
    (permittedFields : list string) (entries : list (string * value))
    (options : ApplyOptions) :
  let out := ApplyDefinition_range def permittedFields entries options in
  (topError out <> None <-> permittedFields = []) /\
  (permittedFields = [] ->
   out = {| coerced := None; fieldErrors := None;
            topError := Some (New
              "Must provide a list of permitted fields with one or more fields");
            logged := []; validator_calls := [] |}) /\
  (permittedFields <> [] ->
   topError out = None /\ is_Some (coerced out) /\ is_Some (fieldErrors out)).
Proof.
  unfold ApplyDefinition_range.
  destruct permittedFields as [| p ps]; simpl.
  - split; [split; [reflexivity | discriminate] |].
    split; [reflexivity | contradiction].
  - split; [split; [contradiction | discriminate] |].
    split; [discriminate | eauto].
Qed.


(** The coercion of an entry, by the declared type of its field. *)
Lemma coercion_by_type (fieldDef : FieldDefinition) (k : string) (v : value) :
  let trim := negb (DisableTrim fieldDef) in
  (FieldType fieldDef = TypeBool ->
   (coercion_value fieldDef k v, coercion_error fieldDef k v) =
     ensureBool v trim) /\
  (FieldType fieldDef = TypeString ->
   (coercion_value fieldDef k v, coercion_error fieldDef k v) =
     ensureString v trim) /\
  (FieldType fieldDef = TypeUUID ->
   (coercion_value fieldDef k v, coercion_error fieldDef k v) =
     ensureUUID v trim) /\
  (FieldType fieldDef <> TypeBool -> FieldType fieldDef <> TypeString ->
   FieldType fieldDef <> TypeUUID ->
   coercion_error fieldDef k v =
     Some (New ("Unknown field type " +:+ FieldType fieldDef +:+
                " when converting field " +:+ k))).
Proof.
  unfold coercion_value, coercion_error, coerce_field, index. simpl.
  repeat split.
  - intros ->. simpl. destruct (ensureBool v _) as [r err]. simpl.
    rewrite lookup_insert_eq. reflexivity.
  - intros ->. simpl. destruct (ensureString v _) as [r err]. simpl.
    rewrite lookup_insert_eq. reflexivity.
  - intros ->. simpl. destruct (ensureUUID v _) as [r err]. simpl.
    rewrite lookup_insert_eq. reflexivity.
  - intros Hb Hs Hu.
    destruct (String.eqb_spec (FieldType fieldDef) TypeBool); [contradiction |].
    destruct (String.eqb_spec (FieldType fieldDef) TypeString); [contradiction |].
    destruct (String.eqb_spec (FieldType fieldDef) TypeUUID); [contradiction |].
    reflexivity.
Qed.

(** What a call leaves under a permitted key that has a field definition,
    in terms of what the switch on the field type returns. *)
Lemma ApplyDefinition_field_outcome (def : Definition_)
    (permittedFields : list string) (m : gmap string value)
    (entries : list (string * value)) (options : ApplyOptions)
    (k : string) (v : value) (fieldDef : FieldDefinition) :
  entries ≡ₚ map_to_list m ->
  m !! k = Some v ->
  k ∈ permittedFields ->
  Fields def !! k = Some fieldDef ->
  exists (app : gmap string value) (errs : gmap string (list error)),
    coerced (ApplyDefinition_range def permittedFields entries options) = Some app /\
    fieldErrors (ApplyDefinition_range def permittedFields entries options) = Some errs /\
    (forall e : error,
       coercion_error fieldDef k v = Some e ->
       errs !! k = Some [e] /\
       calls_for k (validator_calls
         (ApplyDefinition_range def permittedFields entries options)) = []) /\
    (FieldType fieldDef <> TypeBool -> FieldType fieldDef <> TypeString ->
     FieldType fieldDef <> TypeUUID ->
     errs !! k = Some [New ("Unknown field type " +:+ FieldType fieldDef +:+
                            " when converting field " +:+ k)]) /\
    (coercion_error fieldDef k v = None ->
     app !! k = Some (coercion_value fieldDef k v) /\
     calls_for k (validator_calls
       (ApplyDefinition_range def permittedFields entries options)) =
       imap (fun i _ => {| call_key := k; call_index := i;
                           call_arg := coercion_value fieldDef k v |})
            (Validations fieldDef) /\
     default [] (errs !! k) =
       omap (fun validator : Validator =>
               validator (coercion_value fieldDef k v))
            (Validations fieldDef)).
Proof.
  intros Hperm Hm Hk Hfd.
  assert (Hne : permittedFields <> []).
  { intros ->. inversion Hk. }
  destruct (ApplyDefinition_range_maps def permittedFields m entries options
              Hne Hperm) as (Ha & He & _).
  exists (coerced_of def permittedFields m),
         (errors_of def permittedFields options m).
  split; [exact Ha |]. split; [exact He |].
  rewrite (ApplyDefinition_range_calls def permittedFields m entries options k
             Hne Hperm).
  rewrite coerced_of_lookup, errors_of_lookup, Hm. simpl.
  unfold applied_entry, errors_entry, calls_entry.
  apply inList_elem_of in Hk. rewrite Hk, Hfd.
  assert (Hfail : forall e, coercion_error fieldDef k v = Some e ->
            as_entry match coercion_error fieldDef k v with
                     | Some e => [e]
                     | None => validation_errors (Validations fieldDef)
                                 (coercion_value fieldDef k v)
                     end = Some [e]).
  { intros e ->. reflexivity. }
  split; [| split].
  - intros e He'. split; [apply Hfail; exact He' |]. rewrite He'. reflexivity.
  - intros Hb Hs Hu. apply Hfail.
    apply (coercion_by_type fieldDef k v); assumption.
  - intros Hnone. split; [apply coerce_field_ok_stores; exact Hnone |].
    rewrite Hnone. split; [reflexivity |].
    unfold validation_errors.
    destruct (omap _ (Validations fieldDef)); reflexivity.
Qed.

(** C6. For a permitted key of the input that has a field definition, let
    the coercion be that of the declared type of the field ([ensureBool],
    [ensureString] or [ensureUUID]), with trimming unless the field disables
    it.  When the coercion returns an error, the key has exactly this error
    and no validator is called for it; it is so too when the declared type is
    unknown, with the error "Unknown field type <type> when converting field
    <name>".  When the coercion returns a value without error, this value is
    in the coerced map, every validator of the field is called once on it, in
    the order of the list, and the key has the errors of those that fail, in
    the same order. *)
Theorem ApplyDefinition_coercion_then_validations (def : Definition_)
    (permittedFields : list string) (m : gmap string value)
    (entries : list (string * value)) (options : ApplyOptions)
    (k : string) (v : value) (fieldDef : FieldDefinition) :
  entries ≡ₚ map_to_list m ->
  m !! k = Some v ->
  k ∈ permittedFields ->
  Fields def !! k = Some fieldDef ->
  exists (app : gmap string value) (errs : gmap string (list error)),
    coerced (ApplyDefinition_range def permittedFields entries options) = Some app /\
    fieldErrors (ApplyDefinition_range def permittedFields entries options) = Some errs /\
    (forall (r : value) (err : option error),
       let trim := negb (DisableTrim fieldDef) in
       (FieldType fieldDef = TypeBool /\ ensureBool v trim = (r, err)) \/
       (FieldType fieldDef = TypeString /\ ensureString v trim = (r, err)) \/
       (FieldType fieldDef = TypeUUID /\ ensureUUID v trim = (r, err)) ->
       match err with
       | Some e =>
           errs !! k = Some [e] /\
           calls_for k (validator_calls
             (ApplyDefinition_range def permittedFields entries options)) = []
       | None =>
           app !! k = Some r /\
           calls_for k (validator_calls
             (ApplyDefinition_range def permittedFields entries options)) =
             imap (fun i _ => {| call_key := k; call_index := i; call_arg := r |})
                  (Validations fieldDef) /\
           default [] (errs !! k) =
             omap (fun validator : Validator => validator r)
                  (Validations fieldDef)
       end) /\
    (FieldType fieldDef <> TypeBool -> FieldType fieldDef <> TypeString ->
     FieldType fieldDef <> TypeUUID ->
     errs !! k = Some [New ("Unknown field type " +:+ FieldType fieldDef +:+
                            " when converting field " +:+ k)] /\
     calls_for k (validator_calls
       (ApplyDefinition_range def permittedFields entries options)) = []).
Proof.
  intros Hperm Hm Hk Hfd.
  destruct (ApplyDefinition_field_outcome def permittedFields m entries options
              k v fieldDef Hperm Hm Hk Hfd)
    as (app & errs & Ha & He & Hfail & _ & Hok).
  destruct (coercion_by_type fieldDef k v) as (Hb & Hs & Hu & Hother).
  exists app, errs. split; [exact Ha |]. split; [exact He |]. split.
  - intros r err trim Hcase.
    assert (Hres : coercion_value fieldDef k v = r /\
                   coercion_error fieldDef k v = err).
    { destruct Hcase as [[Et Er] | [[Et Er] | [Et Er]]].
      - specialize (Hb Et). fold trim in Hb. rewrite Er in Hb.
        injection Hb as -> ->. auto.
      - specialize (Hs Et). fold trim in Hs. rewrite Er in Hs.
        injection Hs as -> ->. auto.
      - specialize (Hu Et). fold trim in Hu. rewrite Er in Hu.
        injection Hu as -> ->. auto. }
    destruct Hres as [Hr Herr]. destruct err as [e |].
    + apply Hfail. exact Herr.
    + rewrite <- Hr. apply Hok. exact Herr.
  - intros Nb Ns Nu. apply Hfail. apply Hother; assumption.
Qed.

(** C8. The two maps and the error of a call depend on the permitted fields
    through their set only, and on the input through its entries only, not
    through the order in which the loop visits them; so two calls on the
    same arguments return the same maps. *)
Theorem ApplyDefinition_order_independent (def : Definition_)
    (permitted1 permitted2 : list string) (m : gmap string value)
    (entries1 entries2 : list (string * value)) (options : ApplyOptions) :
  (forall k, k ∈ permitted1 <-> k ∈ permitted2) ->
  entries1 ≡ₚ map_to_list m ->
  entries2 ≡ₚ map_to_list m ->
  coerced (ApplyDefinition_range def permitted1 entries1 options) =
    coerced (ApplyDefinition_range def permitted2 entries2 options) /\
  fieldErrors (ApplyDefinition_range def permitted1 entries1 options) =
    fieldErrors (ApplyDefinition_range def permitted2 entries2 options) /\
  topError (ApplyDefinition_range def permitted1 entries1 options) =
    topError (ApplyDefinition_range def permitted2 entries2 options) /\
  coerced (ApplyDefinition_range def permitted1 entries1 options) =
    coerced (ApplyDefinition def permitted1 m options) /\
  fieldErrors (ApplyDefinition_range def permitted1 entries1 options) =
    fieldErrors (ApplyDefinition def permitted1 m options).
Proof.
  intros Hp H1 H2.
  destruct permitted1 as [| p1 ps1].
  { destruct permitted2 as [| p2 ps2]; [repeat split |].
    assert (Hin : p2 ∈ ([] : list string)) by (apply Hp, list_elem_of_here).
    inversion Hin. }
  assert (Hne2 : permitted2 <> []).
  { intros ->. assert (Hin : p1 ∈ ([] : list string))
      by (apply Hp, list_elem_of_here). inversion Hin. }
  assert (Hne1 : p1 :: ps1 <> []) by discriminate.
  destruct (ApplyDefinition_range_maps def (p1 :: ps1) m entries1 options
              Hne1 H1) as (-> & -> & ->).
  destruct (ApplyDefinition_range_maps def permitted2 m entries2 options
              Hne2 H2) as (-> & -> & ->).
  destruct (ApplyDefinition_maps def (p1 :: ps1) m options Hne1)
    as (-> & -> & _).
  pose proof (inList_ext _ _ Hp) as Hin.
  repeat split; f_equal; apply map_eq; intros k.
  - rewrite !coerced_of_lookup. destruct (m !! k); [simpl | reflexivity].
    unfold applied_entry. rewrite Hin. reflexivity.
  - rewrite !errors_of_lookup. destruct (m !! k); [simpl | reflexivity].
    unfold errors_entry. rewrite Hin. reflexivity.
Qed.

End Engine.

(** ** Concrete runs *)

Example test_ensureBool :
  ensureBool (H := go_ref) (VString "true") true = (VBool true, None) /\
  ensureBool (H := go_ref) (VString " true  ") true = (VBool true, None) /\
  ensureBool (H := go_ref) (VString "on") true = (VBool true, None) /\
  ensureBool (H := go_ref) (VString "false") true = (VBool false, None) /\
  ensureBool (H := go_ref) (VString "off") true = (VBool false, None) /\
  ensureBool (H := go_ref) (VString "True") true =
    (VNil, Some (New "field must be true or false")) /\
  ensureBool (H := go_ref) (VString "dunno") true =
    (VNil, Some (New "field must be true or false")) /\
  ensureBool (H := go_ref) (VBool true) false = (VBool true, None).
Proof. repeat split. Qed.

Example test_ensureString :
  let padded := tab +:+ tab +:+ "lorem ipsum" +:+ tab +:+ " " in
  ensureString (H := go_ref) (VString "lorem ipsum") false =
    (VString "lorem ipsum", None) /\
  ensureString (H := go_ref) (VString padded) true =
    (VString "lorem ipsum", None) /\
  ensureString (H := go_ref) (VString padded) false = (VString padded, None).
Proof. repeat split. Qed.

Example test_ValidateOrChain :
  ValidateOrChain (H := go_ref) [] (VString "x") = None /\
  ValidateOrChain (H := go_ref) [ValidateFail (H := go_ref) "a";
                                 ValidateFail (H := go_ref) "b"] (VString "x") =
    Some (New "a or b") /\
  ValidateOrChain (H := go_ref)
    [ValidateFail (H := go_ref) "a"; ValidateNumbers (H := go_ref);
     ValidateFail (H := go_ref) "b"] (VString "-12") = None /\
  ValidateOrChain_calls
    [ValidateFail (H := go_ref) "a"; ValidateNumbers (H := go_ref);
     ValidateFail (H := go_ref) "b"] (VString "-12") = 2%nat.
Proof. repeat split. Qed.

Example test_ApplyDefinition_fail_mode :
  let out := ApplyDefinition (H := go_ref) testDefinition testPermittedFields
               testInput {| ErrorOnPermission := MissingErrorFail |} in
  coerced out ≫= (.!! "field3") =
    Some (VString "this is also string but is tabbed") /\
  coerced out ≫= (.!! "field6") = None /\
  fieldErrors out ≫= (.!! "field6") =
    Some [New "Using field field6 not permitted"] /\
  topError out = None.
Proof. vm_compute. repeat split. Qed.

Example test_ApplyDefinition_no_error :
  let out := ApplyDefinition (H := go_ref) testDefinition testPermittedFields
               testInput {| ErrorOnPermission := MissingErrorNone |} in
  coerced out ≫= (.!! "field1") = Some (VBool true) /\
  coerced out ≫= (.!! "field2") = Some (VString "this is a string") /\
  coerced out ≫= (.!! "field4") =
    Some (VString (tab +:+ "this is also string but is tabbed and should not trim"
                   +:+ tab +:+ " ")) /\
  (Sprint_v (H := go_ref) <$> (coerced out ≫= (.!! "field5"))) =
    Some "123e4567-e89b-12d3-a456-426614174000" /\
  fieldErrors out = Some ∅ /\
  topError out = None.
Proof. vm_compute. repeat split. Qed.

Lemma ApplyDefinition_top_error_witness :
  ApplyDefinition_range (H := go_ref) testDefinition [] (map_to_list testInput)
    {| ErrorOnPermission := MissingErrorFail |} =
  {| coerced := None; fieldErrors := None;
     topError := Some (New
       "Must provide a list of permitted fields with one or more fields");
     logged := []; validator_calls := [] |}.
Proof.
  apply (proj1 (proj2 (ApplyDefinition_top_error (H := go_ref) testDefinition []
                         (map_to_list testInput)
                         {| ErrorOnPermission := MissingErrorFail |}))).
  reflexivity.
Defined.

(** The error of a call without permitted fields does not have the text
    "must provide one or more permitted fields". *)
Lemma ApplyDefinition_top_error_other_text :
  topError (ApplyDefinition (H := go_ref) testDefinition [] testInput
              {| ErrorOnPermission := MissingErrorFail |}) <>
    Some (New "must provide one or more permitted fields").
Proof. vm_compute. discriminate. Qed.



Example test_ApplyDefinition_validations :
  let out := ApplyDefinition (H := go_ref) checkedDefinition ["code"]
               {["code" := VString " 12x "]}
               {| ErrorOnPermission := MissingErrorNone |} in
  coerced out = Some {["code" := VString "12x"]} /\
  fieldErrors out =
    Some {["code" := [New "first"; New "Must be numbers only"; New "last"]]} /\
  validator_calls out =
    [{| call_key := "code"; call_index := 0; call_arg := VString "12x" |};
     {| call_key := "code"; call_index := 1; call_arg := VString "12x" |};
     {| call_key := "code"; call_index := 2; call_arg := VString "12x" |}].
Proof. vm_compute. repeat split. Qed.

Lemma ApplyDefinition_coercion_then_validations_witness :
  let input : gmap string value := {["code" := VString " 12x "]} in
  let run := ApplyDefinition_range (H := go_ref) checkedDefinition ["code"]
               (map_to_list input) {| ErrorOnPermission := MissingErrorNone |} in
  exists (app : gmap string value) (errs : gmap string (list error)),
    coerced run = Some app /\
    fieldErrors run = Some errs /\
    (forall (r : value) (err : option error),
       let trim := negb (DisableTrim checkedField) in
       (FieldType checkedField = TypeBool /\
        ensureBool (H := go_ref) (VString " 12x ") trim = (r, err)) \/
       (FieldType checkedField = TypeString /\
        ensureString (H := go_ref) (VString " 12x ") trim = (r, err)) \/
       (FieldType checkedField = TypeUUID /\
        ensureUUID (H := go_ref) (VString " 12x ") trim = (r, err)) ->
       match err with
       | Some e =>
           errs !! "code" = Some [e] /\
           calls_for "code" (validator_calls run) = []
       | None =>
           app !! "code" = Some r /\
           calls_for "code" (validator_calls run) =
             imap (fun i _ => {| call_key := "code"; call_index := i;
                                 call_arg := r |})
                  (Validations checkedField) /\
           default [] (errs !! "code") =
             omap (fun validator : Validator => validator r)
                  (Validations checkedField)
       end) /\
    (FieldType checkedField <> TypeBool -> FieldType checkedField <> TypeString ->
     FieldType checkedField <> TypeUUID ->
     errs !! "code" =
       Some [New ("Unknown field type " +:+ FieldType checkedField +:+
                  " when converting field " +:+ "code")] /\
     calls_for "code" (validator_calls run) = []).
Proof.
  apply (ApplyDefinition_coercion_then_validations (H := go_ref)
           checkedDefinition ["code"] {["code" := VString " 12x "]}
           (map_to_list ({["code" := VString " 12x "]} : gmap string value))
           {| ErrorOnPermission := MissingErrorNone |} "code"
           (VString " 12x ") checkedField).
  - reflexivity.
  - vm_compute. reflexivity.
  - apply inList_elem_of. reflexivity.
  - vm_compute. reflexivity.
Defined.

(** The same run, at the value the coercion of the field returns: the
    trimmed string is stored and given to the three validators. *)
Example test_ApplyDefinition_coercion_then_validations :
  let input : gmap string value := {["code" := VString " 12x "]} in
  let run := ApplyDefinition_range (H := go_ref) checkedDefinition ["code"]
               (map_to_list input) {| ErrorOnPermission := MissingErrorNone |} in
  ensureString (H := go_ref) (VString " 12x ") (negb (DisableTrim checkedField)) =
    (VString "12x", None) /\
  (coerced run ≫= (.!! "code")) = Some (VString "12x") /\
  calls_for "code" (validator_calls run) =
    [{| call_key := "code"; call_index := 0; call_arg := VString "12x" |};
     {| call_key := "code"; call_index := 1; call_arg := VString "12x" |};
     {| call_key := "code"; call_index := 2; call_arg := VString "12x" |}] /\
  (fieldErrors run ≫= (.!! "code")) =
    Some [New "first"; New "Must be numbers only"; New "last"].
Proof. vm_compute. repeat split. Qed.

Lemma ApplyDefinition_order_independent_witness :
  let none := {| ErrorOnPermission := MissingErrorNone |} in
  let forwards := map_to_list testInput in
  let backwards := reverse (map_to_list testInput) in
  let permitted := testPermittedFields in
  let permitted' := reverse ("field1" :: testPermittedFields) in
  coerced (ApplyDefinition_range (H := go_ref) testDefinition permitted forwards none) =
    coerced (ApplyDefinition_range (H := go_ref) testDefinition permitted' backwards none) /\
  fieldErrors (ApplyDefinition_range (H := go_ref) testDefinition permitted forwards none) =
    fieldErrors (ApplyDefinition_range (H := go_ref) testDefinition permitted' backwards none) /\
  topError (ApplyDefinition_range (H := go_ref) testDefinition permitted forwards none) =
    topError (ApplyDefinition_range (H := go_ref) testDefinition permitted' backwards none) /\
  coerced (ApplyDefinition_range (H := go_ref) testDefinition permitted forwards none) =
    coerced (ApplyDefinition (H := go_ref) testDefinition permitted testInput none) /\
  fieldErrors (ApplyDefinition_range (H := go_ref) testDefinition permitted forwards none) =
    fieldErrors (ApplyDefinition (H := go_ref) testDefinition permitted testInput none).
Proof.
  apply (ApplyDefinition_order_independent (H := go_ref) testDefinition
           testPermittedFields (reverse ("field1" :: testPermittedFields))
           testInput (map_to_list testInput) (reverse (map_to_list testInput))
           {| ErrorOnPermission := MissingErrorNone |}).
  - intros k. rewrite elem_of_reverse, elem_of_cons.
    unfold testPermittedFields. rewrite elem_of_cons. tauto.
  - reflexivity.
  - apply reverse_Permutation.
Defined.

(** C1. The coerced map has an entry for a permitted field whose coercion
    fails: for a field "f" of type bool and the input "dunno", the
    coercion returns nil with the error "field must be true or false", and
    the call returns the coerced map with "f" at nil, next to that error
    under "f". *)
Theorem ApplyDefinition_keeps_failed_coercion `{GoLib} :
  let def := {| Fields := {["f" := testField TypeBool true]} |} in
  let out := ApplyDefinition def ["f"] {["f" := VString "dunno"]}
               {| ErrorOnPermission := MissingErrorNone |} in
  ensureBool (VString "dunno") false =
    (VNil, Some (New "field must be true or false")) /\
  coerced out = Some {["f" := VNil]} /\
  fieldErrors out = Some {["f" := [New "field must be true or false"]]} /\
  topError out = None.
Proof. vm_compute. repeat split. Qed.

(** * Further properties of the package *)

(** ** Splitting a map by group *)

Section Groups.

Lemma GetGroup_step_lookup (fields : list (string * FieldDefinition))
    (group : string) (m : gmap string value) (name : string) :
  NoDup fields.*1 ->
  forall out : gmap string value,
  foldl (fun out nf =>
           if String.eqb (Group nf.2) group then
             match m !! nf.1 with
             | Some v => <[nf.1 := v]> out
             | None => out
             end
           else out) out fields !! name =
    match (list_to_map fields : gmap string FieldDefinition) !! name with
    | Some f =>
        if String.eqb (Group f) group then
          match m !! name with Some v => Some v | None => out !! name end
        else out !! name
    | None => out !! name
    end.
Proof.
  induction fields as [| [n0 f0] rest IH]; intros Hnd out.
  - simpl. rewrite lookup_empty. reflexivity.
  - rewrite fmap_cons in Hnd. apply NoDup_cons in Hnd as [Hn0 Hnd].
    simpl foldl. rewrite (IH Hnd). simpl list_to_map.
    destruct (decide (n0 = name)) as [<- | Hne].
    + rewrite lookup_insert_eq, (not_elem_of_list_to_map_1 rest n0 Hn0).
      destruct (String.eqb (Group f0) group); [| reflexivity].
      destruct (m !! n0); [apply lookup_insert_eq | reflexivity].
    + rewrite lookup_insert_ne by exact Hne.
      assert (Hout : (if String.eqb (Group f0) group
                      then match m !! n0 with
                           | Some v => <[n0 := v]> out
                           | None => out
                           end
                      else out) !! name = out !! name).
      { destruct (String.eqb (Group f0) group); [| reflexivity].
        destruct (m !! n0); [apply lookup_insert_ne; exact Hne | reflexivity]. }
      rewrite Hout. reflexivity.
Qed.

Lemma GetGroup_range_lookup (def : Definition_)
    (fields : list (string * FieldDefinition)) (group : string)
    (m : gmap string value) (name : string) :
  fields ≡ₚ map_to_list (Fields def) ->
  GetGroup_range fields group m !! name =
    match Fields def !! name with
    | Some f => if String.eqb (Group f) group then m !! name else None
    | None => None
    end.
Proof.
  intros Hperm.
  assert (Hnd : NoDup fields.*1).
  { rewrite Hperm. apply NoDup_fst_map_to_list. }
  assert (Hm : (list_to_map fields : gmap string FieldDefinition) = Fields def).
  { rewrite (list_to_map_proper fields (map_to_list (Fields def)) Hnd Hperm).
    apply list_to_map_to_list. }
  unfold GetGroup_range. rewrite (GetGroup_step_lookup fields group m name Hnd).
  rewrite Hm, lookup_empty.
  destruct (Fields def !! name) as [f |]; [| reflexivity].
  destruct (String.eqb (Group f) group); [| reflexivity].
  destruct (m !! name); reflexivity.
Qed.

Lemma GetGroup_lookup (def : Definition_) (group : string)
    (m : gmap string value) (name : string) :
  GetGroup def group m !! name =
    match Fields def !! name with
    | Some f => if String.eqb (Group f) group then m !! name else None
    | None => None
    end.
Proof. apply GetGroup_range_lookup. reflexivity. Qed.

(** X1. [GetGroup] returns the entries of the map whose key has a field
    definition of the given group, and nothing else, in whatever order the
    fields of the definition are visited. *)
Theorem GetGroup_entries (def : Definition_)
    (fields : list (string * FieldDefinition)) (group : string)
    (m : gmap string value) :
  fields ≡ₚ map_to_list (Fields def) ->
  GetGroup_range fields group m = GetGroup def group m /\
  forall (name : string) (v : value),
    GetGroup def group m !! name = Some v <->
    exists f, Fields def !! name = Some f /\ Group f = group /\
              m !! name = Some v.
Proof.
  intros Hperm. split.
  - apply map_eq. intros name.
    rewrite (GetGroup_range_lookup def fields group m name Hperm).
    rewrite GetGroup_lookup. reflexivity.
  - intros name v. rewrite GetGroup_lookup. split.
    + destruct (Fields def !! name) as [f |]; [| discriminate].
      destruct (String.eqb_spec (Group f) group) as [Hg | _]; [| discriminate].
      intros Hm. exists f. auto.
    + intros (f & -> & Hg & Hm).
      destruct (String.eqb_spec (Group f) group) as [_ | Hn];
        [exact Hm | contradiction].
Qed.

(** X2. The map of a group is a part of the given map; taking the group of
    it again changes nothing; and the maps of two different groups have no
    key in common. *)
Theorem GetGroup_partition (def : Definition_) (m : gmap string value)
    (group group' : string) :
  GetGroup def group m ⊆ m /\
  GetGroup def group (GetGroup def group m) = GetGroup def group m /\
  (group <> group' -> GetGroup def group m ##ₘ GetGroup def group' m).
Proof.
  split; [| split].
  - apply map_subseteq_spec. intros name v. rewrite GetGroup_lookup.
    destruct (Fields def !! name) as [f |]; [| discriminate].
    destruct (String.eqb (Group f) group); [auto | discriminate].
  - apply map_eq. intros name. rewrite !GetGroup_lookup.
    destruct (Fields def !! name) as [f |]; [| reflexivity].
    destruct (String.eqb (Group f) group); reflexivity.
  - intros Hne. apply map_disjoint_spec. intros name x y.
    rewrite !GetGroup_lookup.
    destruct (Fields def !! name) as [f |]; [| discriminate].
    destruct (String.eqb_spec (Group f) group) as [Hg | _]; [| discriminate].
    destruct (String.eqb_spec (Group f) group') as [Hg' | _]; [| discriminate].
    congruence.
Qed.

End Groups.

Lemma GetGroup_entries_witness :
  GetGroup_range (reverse (map_to_list (Fields testDefinition))) "test-group"
    testInput = GetGroup testDefinition "test-group" testInput /\
  forall (name : string) (v : value),
    GetGroup testDefinition "test-group" testInput !! name = Some v <->
    exists f, Fields testDefinition !! name = Some f /\
              Group f = "test-group" /\ testInput !! name = Some v.
Proof.
  apply (GetGroup_entries testDefinition
           (reverse (map_to_list (Fields testDefinition))) "test-group"
           testInput).
  apply reverse_Permutation.
Defined.

Lemma GetGroup_partition_witness :
  GetGroup testDefinition "test-group" testInput ##ₘ
  GetGroup testDefinition "other-group" testInput.
Proof.
  apply (proj2 (proj2 (GetGroup_partition testDefinition testInput
                         "test-group" "other-group"))).
  discriminate.
Defined.

(** ** More on the definition application engine *)

Section EngineMore.
Context `{GoLib}.

Lemma ensureBool_ok_type (v : value) (trim : bool) :
  (ensureBool v trim).2 = None -> is_bool (ensureBool v trim).1 = true.
Proof.
  destruct v as [| b | s | u | ty f]; simpl; try discriminate; [reflexivity |].
  destruct (_ || _); [reflexivity |].
  destruct (_ || _); [reflexivity | discriminate].
Qed.

Lemma ensureString_ok_type (v : value) (trim : bool) :
  (ensureString v trim).2 = None -> is_string (ensureString v trim).1 = true.
Proof.
  destruct v as [| b | s | u | ty f]; simpl; try discriminate.
  destruct trim; reflexivity.
Qed.

Lemma ensureUUID_ok_type (v : value) (trim : bool) :
  (ensureUUID v trim).2 = None -> is_uuid (ensureUUID v trim).1 = true.
Proof.
  destruct v as [| b | s | u | ty f]; simpl; try discriminate; [| reflexivity].
  destruct (if trim then _ else _) as [id err]. reflexivity.
Qed.

Lemma coercion_ok_type (fieldDef : FieldDefinition) (k : string) (v : value) :
  coercion_error fieldDef k v = None ->
  has_type (FieldType fieldDef) (coercion_value fieldDef k v) = true.
Proof.
  intros Hnone. unfold has_type.
  destruct (coercion_by_type fieldDef k v) as (Hb & Hs & Hu & Hother).
  destruct (String.eqb_spec (FieldType fieldDef) TypeBool) as [Et | Nb].
  { specialize (Hb Et). rewrite Hnone in Hb.
    pose proof (ensureBool_ok_type v (negb (DisableTrim fieldDef))) as Ht.
    rewrite <- Hb in Ht. apply Ht. reflexivity. }
  destruct (String.eqb_spec (FieldType fieldDef) TypeString) as [Et | Ns].
  { specialize (Hs Et). rewrite Hnone in Hs.
    pose proof (ensureString_ok_type v (negb (DisableTrim fieldDef))) as Ht.
    rewrite <- Hs in Ht. apply Ht. reflexivity. }
  destruct (String.eqb_spec (FieldType fieldDef) TypeUUID) as [Et | Nu].
  { specialize (Hu Et). rewrite Hnone in Hu.
    pose proof (ensureUUID_ok_type v (negb (DisableTrim fieldDef))) as Ht.
    rewrite <- Hu in Ht. apply Ht. reflexivity. }
  rewrite (Hother Nb Ns Nu) in Hnone. discriminate.
Qed.

Lemma validation_errors_nil (validations : list Validator) (c : value) :
  validation_errors validations c = [] ->
  Forall (fun validator : Validator => validator c = None) validations.
Proof.
  induction validations as [| vd rest IH]; [constructor |].
  rewrite validation_errors_cons.
  destruct (vd c) eqn:Evd; [discriminate |].
  intros Hrest. constructor; [exact Evd | apply IH; exact Hrest].
Qed.

(** X3. The keys of the coerced map are the keys of the input that are
    permitted and have a field definition of type bool, string or uuid;
    whether the coercion succeeds plays no part. *)
Theorem ApplyDefinition_coerced_keys (def : Definition_)
    (permittedFields : list string) (m : gmap string value)
    (entries : list (string * value)) (options : ApplyOptions) :
  permittedFields <> [] ->
  entries ≡ₚ map_to_list m ->
  exists app : gmap string value,
    coerced (ApplyDefinition_range def permittedFields entries options) = Some app /\
    forall k : string,
      is_Some (app !! k) <->
      exists v fieldDef,
        m !! k = Some v /\ k ∈ permittedFields /\
        Fields def !! k = Some fieldDef /\
        (FieldType fieldDef = TypeBool \/ FieldType fieldDef = TypeString \/
         FieldType fieldDef = TypeUUID).
Proof.
  intros Hne Hperm.
  destruct (ApplyDefinition_range_maps def permittedFields m entries options
              Hne Hperm) as (Ha & _ & _).
  exists (coerced_of def permittedFields m). split; [exact Ha |].
  intros k. apply coerced_of_key.
Qed.

(** X4. The error map has an entry only for a key of the input, and never an
    entry with an empty list. *)
Theorem ApplyDefinition_error_lists (def : Definition_)
    (permittedFields : list string) (m : gmap string value)
    (entries : list (string * value)) (options : ApplyOptions) :
  permittedFields <> [] ->
  entries ≡ₚ map_to_list m ->
  exists errs : gmap string (list error),
    fieldErrors (ApplyDefinition_range def permittedFields entries options) =
      Some errs /\
    forall (k : string) (l : list error),
      errs !! k = Some l -> l <> [] /\ is_Some (m !! k).
Proof.
  intros Hne Hperm.
  destruct (ApplyDefinition_range_maps def permittedFields m entries options
              Hne Hperm) as (_ & He & _).
  exists (errors_of def permittedFields options m). split; [exact He |].
  intros k l Hl. split; [exact (errors_of_nonempty _ _ _ _ _ _ Hl) |].
  rewrite errors_of_lookup in Hl.
  destruct (m !! k); [eauto | discriminate].
Qed.

(** X5. A permitted key of the input that has a field definition and no
    entry in the error map has, in the coerced map, a value of the type its
    field declares, on which every validator of the field passes. *)
Theorem ApplyDefinition_clean_field (def : Definition_)
    (permittedFields : list string) (m : gmap string value)
    (entries : list (string * value)) (options : ApplyOptions)
    (k : string) (v : value) (fieldDef : FieldDefinition)
    (errs : gmap string (list error)) :
  entries ≡ₚ map_to_list m ->
  m !! k = Some v ->
  k ∈ permittedFields ->
  Fields def !! k = Some fieldDef ->
  fieldErrors (ApplyDefinition_range def permittedFields entries options) =
    Some errs ->
  errs !! k = None ->
  exists (app : gmap string value) (r : value),
    coerced (ApplyDefinition_range def permittedFields entries options) = Some app /\
    app !! k = Some r /\
    has_type (FieldType fieldDef) r = true /\
    Forall (fun validator : Validator => validator r = None)
           (Validations fieldDef).
Proof.
  intros Hperm Hm Hk Hfd Herrs Hnone.
  assert (Hne : permittedFields <> []).
  { intros ->. inversion Hk. }
  destruct (ApplyDefinition_range_maps def permittedFields m entries options
              Hne Hperm) as (Ha & He & _).
  rewrite He in Herrs. injection Herrs as <-.
  rewrite errors_of_lookup, Hm in Hnone. simpl in Hnone.
  unfold errors_entry in Hnone.
  apply inList_elem_of in Hk. rewrite Hk, Hfd in Hnone.
  destruct (coercion_error fieldDef k v) as [e |] eqn:Ece; [discriminate |].
  exists (coerced_of def permittedFields m), (coercion_value fieldDef k v).
  split; [exact Ha |]. split; [| split].
  - rewrite coerced_of_lookup, Hm. simpl. unfold applied_entry.
    rewrite Hk, Hfd. apply coerce_field_ok_stores; exact Ece.
  - apply coercion_ok_type; exact Ece.
  - apply validation_errors_nil.
    destruct (validation_errors _ _); [reflexivity | discriminate].
Qed.

(** X6. The coerced map does not depend on the mode [ErrorOnPermission],
    nor do the errors under a permitted key. *)
Theorem ApplyDefinition_mode_independent (def : Definition_)
    (permittedFields : list string) (m : gmap string value)
    (entries1 entries2 : list (string * value))
    (options1 options2 : ApplyOptions) :
  entries1 ≡ₚ map_to_list m ->
  entries2 ≡ₚ map_to_list m ->
  coerced (ApplyDefinition_range def permittedFields entries1 options1) =
    coerced (ApplyDefinition_range def permittedFields entries2 options2) /\
  forall k : string,
    k ∈ permittedFields ->
    (.!! k) <$> fieldErrors
      (ApplyDefinition_range def permittedFields entries1 options1) =
    (.!! k) <$> fieldErrors
      (ApplyDefinition_range def permittedFields entries2 options2).
Proof.
  intros H1 H2.
  destruct permittedFields as [| p ps].
  { split; [reflexivity | intros k Hk; inversion Hk]. }
  assert (Hne : p :: ps <> []) by discriminate.
  destruct (ApplyDefinition_range_maps def (p :: ps) m entries1 options1
              Hne H1) as (-> & -> & _).
  destruct (ApplyDefinition_range_maps def (p :: ps) m entries2 options2
              Hne H2) as (-> & -> & _).
  split; [reflexivity |].
  intros k Hk. simpl. f_equal. rewrite !errors_of_lookup.
  destruct (m !! k); [simpl | reflexivity].
  unfold errors_entry. apply inList_elem_of in Hk. rewrite Hk. reflexivity.
Qed.

Lemma apply_entry_other_mode (def : Definition_) (permittedFields : list string)
    (options : ApplyOptions) (st : State) (k : string) (v : value) :
  ErrorOnPermission options <> MissingErrorWarn ->
  ErrorOnPermission options <> MissingErrorFail ->
  apply_entry def permittedFields options st k v =
    apply_entry def permittedFields {| ErrorOnPermission := MissingErrorNone |}
      st k v.
Proof.
  intros Hw Hf. unfold apply_entry.
  destruct (inList permittedFields k); simpl; [reflexivity |].
  destruct (String.eqb_spec (ErrorOnPermission options) MissingErrorWarn);
    [contradiction |].
  destruct (String.eqb_spec (ErrorOnPermission options) MissingErrorFail);
    [contradiction | reflexivity].
Qed.

(** X7. A mode that is neither "warn" nor "fail", whatever its text, gives
    the outcome of the mode none: maps, error, log and calls. *)
Theorem ApplyDefinition_other_mode (def : Definition_)
    (permittedFields : list string) (entries : list (string * value))
    (options : ApplyOptions) :
  ErrorOnPermission options <> MissingErrorWarn ->
  ErrorOnPermission options <> MissingErrorFail ->
  ApplyDefinition_range def permittedFields entries options =
    ApplyDefinition_range def permittedFields entries
      {| ErrorOnPermission := MissingErrorNone |}.
Proof.
  intros Hw Hf. unfold ApplyDefinition_range.
  destruct (Nat.eqb (length permittedFields) 0); [reflexivity |].
  assert (Heq : forall st,
    apply_entries def permittedFields options entries st =
    apply_entries def permittedFields
      {| ErrorOnPermission := MissingErrorNone |} entries st).
  { induction entries as [| [k v] rest IH]; intros st; [reflexivity |].
    unfold apply_entries in *. simpl.
    rewrite (apply_entry_other_mode def permittedFields options st k v Hw Hf).
    apply IH. }
  rewrite Heq. reflexivity.
Qed.

(** X8. What a call returns under a key depends on the entry of the input
    at this key only: two inputs that agree at a key give the same coerced
    value, the same errors and the same calls of validators for it.  In
    particular a key that the input lacks gets nothing, also when it is
    permitted and has a field definition: a missing field is no error. *)
Theorem ApplyDefinition_local (def : Definition_)
    (permittedFields : list string) (m1 m2 : gmap string value)
    (entries1 entries2 : list (string * value)) (options : ApplyOptions)
    (k : string) :
  permittedFields <> [] ->
  entries1 ≡ₚ map_to_list m1 ->
  entries2 ≡ₚ map_to_list m2 ->
  let out1 := ApplyDefinition_range def permittedFields entries1 options in
  let out2 := ApplyDefinition_range def permittedFields entries2 options in
  (m1 !! k = m2 !! k ->
   (.!! k) <$> coerced out1 = (.!! k) <$> coerced out2 /\
   (.!! k) <$> fieldErrors out1 = (.!! k) <$> fieldErrors out2 /\
   calls_for k (validator_calls out1) = calls_for k (validator_calls out2)) /\
  (m1 !! k = None ->
   (.!! k) <$> coerced out1 = Some None /\
   (.!! k) <$> fieldErrors out1 = Some None /\
   calls_for k (validator_calls out1) = []).
Proof.
  intros Hne H1 H2 out1 out2. subst out1 out2.
  rewrite (ApplyDefinition_range_calls def permittedFields m1 entries1 options k
             Hne H1).
  rewrite (ApplyDefinition_range_calls def permittedFields m2 entries2 options k
             Hne H2).
  destruct (ApplyDefinition_range_maps def permittedFields m1 entries1 options
              Hne H1) as (-> & -> & _).
  destruct (ApplyDefinition_range_maps def permittedFields m2 entries2 options
              Hne H2) as (-> & -> & _).
  simpl. rewrite !coerced_of_lookup, !errors_of_lookup. split.
  - intros ->. auto.
  - intros ->. auto.
Qed.



(** X10. Splitting the coerced map of a call by group loses nothing: every
    entry of the coerced map is in the map of the group of its field. *)
Theorem GetGroup_of_coerced (def : Definition_)
    (permittedFields : list string) (m : gmap string value)
    (entries : list (string * value)) (options : ApplyOptions)
    (app : gmap string value) (k : string) (r : value) :
  entries ≡ₚ map_to_list m ->
  coerced (ApplyDefinition_range def permittedFields entries options) = Some app ->
  app !! k = Some r ->
  exists fieldDef,
    Fields def !! k = Some fieldDef /\
    GetGroup def (Group fieldDef) app !! k = Some r.
Proof.
  intros Hperm Happ Hr.
  assert (Hne : permittedFields <> []).
  { intros ->. discriminate. }
  destruct (ApplyDefinition_range_maps def permittedFields m entries options
              Hne Hperm) as (Ha & _ & _).
  rewrite Ha in Happ. injection Happ as <-.
  assert (Hs : is_Some (coerced_of def permittedFields m !! k)) by eauto.
  apply coerced_of_key in Hs as (v & fieldDef & _ & _ & Hfd & _).
  exists fieldDef. split; [exact Hfd |].
  rewrite GetGroup_lookup, Hfd, String.eqb_refl. exact Hr.
Qed.

End EngineMore.

Lemma ApplyDefinition_coerced_keys_witness :
  exists app : gmap string value,
    coerced (ApplyDefinition_range (H := go_ref) testDefinition
               testPermittedFields (map_to_list testInput)
               {| ErrorOnPermission := MissingErrorFail |}) = Some app /\
    forall k : string,
      is_Some (app !! k) <->
      exists v fieldDef,
        testInput !! k = Some v /\ k ∈ testPermittedFields /\
        Fields testDefinition !! k = Some fieldDef /\
        (FieldType fieldDef = TypeBool \/ FieldType fieldDef = TypeString \/
         FieldType fieldDef = TypeUUID).
Proof.
  apply (ApplyDefinition_coerced_keys (H := go_ref) testDefinition
           testPermittedFields testInput (map_to_list testInput)
           {| ErrorOnPermission := MissingErrorFail |}).
  - discriminate.
  - reflexivity.
Defined.

Lemma ApplyDefinition_error_lists_witness :
  exists errs : gmap string (list error),
    fieldErrors (ApplyDefinition_range (H := go_ref) testDefinition
                   testPermittedFields (map_to_list testInput)
                   {| ErrorOnPermission := MissingErrorFail |}) = Some errs /\
    forall (k : string) (l : list error),
      errs !! k = Some l -> l <> [] /\ is_Some (testInput !! k).
Proof.
  apply (ApplyDefinition_error_lists (H := go_ref) testDefinition
           testPermittedFields testInput (map_to_list testInput)
           {| ErrorOnPermission := MissingErrorFail |}).
  - discriminate.
  - reflexivity.
Defined.

Lemma ApplyDefinition_clean_field_witness :
  exists (app : gmap string value) (r : value),
    coerced (ApplyDefinition_range (H := go_ref) testDefinition
               testPermittedFields (map_to_list testInput)
               {| ErrorOnPermission := MissingErrorNone |}) = Some app /\
    app !! "field1" = Some r /\
    has_type (FieldType (testField TypeBool false)) r = true /\
    Forall (fun validator : Validator => validator r = None)
           (Validations (testField TypeBool false)).
Proof.
  apply (ApplyDefinition_clean_field (H := go_ref) testDefinition
           testPermittedFields testInput (map_to_list testInput)
           {| ErrorOnPermission := MissingErrorNone |} "field1"
           (VString "true") (testField TypeBool false) ∅).
  - reflexivity.
  - vm_compute. reflexivity.
  - apply inList_elem_of. reflexivity.
  - vm_compute. reflexivity.
  - vm_compute. reflexivity.
  - reflexivity.
Defined.

Lemma ApplyDefinition_mode_independent_witness :
  let run1 := ApplyDefinition_range (H := go_ref) testDefinition
                testPermittedFields (map_to_list testInput)
                {| ErrorOnPermission := MissingErrorFail |} in
  let run2 := ApplyDefinition_range (H := go_ref) testDefinition
                testPermittedFields (reverse (map_to_list testInput))
                {| ErrorOnPermission := MissingErrorWarn |} in
  coerced run1 = coerced run2 /\
  forall k : string,
    k ∈ testPermittedFields ->
    (.!! k) <$> fieldErrors run1 = (.!! k) <$> fieldErrors run2.
Proof.
  apply (ApplyDefinition_mode_independent (H := go_ref) testDefinition
           testPermittedFields testInput (map_to_list testInput)
           (reverse (map_to_list testInput))
           {| ErrorOnPermission := MissingErrorFail |}
           {| ErrorOnPermission := MissingErrorWarn |}).
  - reflexivity.
  - apply reverse_Permutation.
Defined.

Lemma ApplyDefinition_other_mode_witness :
  ApplyDefinition_range (H := go_ref) testDefinition testPermittedFields
    (map_to_list testInput) {| ErrorOnPermission := "Fail" |} =
  ApplyDefinition_range (H := go_ref) testDefinition testPermittedFields
    (map_to_list testInput) {| ErrorOnPermission := MissingErrorNone |}.
Proof.
  apply (ApplyDefinition_other_mode (H := go_ref) testDefinition
           testPermittedFields (map_to_list testInput)
           {| ErrorOnPermission := "Fail" |}); discriminate.
Defined.

Lemma ApplyDefinition_local_witness :
  let small : gmap string value := {["field1" := VString "true"]} in
  let out1 := ApplyDefinition_range (H := go_ref) testDefinition
                testPermittedFields (map_to_list testInput)
                {| ErrorOnPermission := MissingErrorFail |} in
  let out2 := ApplyDefinition_range (H := go_ref) testDefinition
                testPermittedFields (map_to_list small)
                {| ErrorOnPermission := MissingErrorFail |} in
  (.!! "field1") <$> coerced out1 = (.!! "field1") <$> coerced out2 /\
  (.!! "field1") <$> fieldErrors out1 = (.!! "field1") <$> fieldErrors out2 /\
  calls_for "field1" (validator_calls out1) =
    calls_for "field1" (validator_calls out2).
Proof.
  apply (proj1 (ApplyDefinition_local (H := go_ref) testDefinition
                  testPermittedFields testInput {["field1" := VString "true"]}
                  (map_to_list testInput)
                  (map_to_list ({["field1" := VString "true"]} : gmap string value))
                  {| ErrorOnPermission := MissingErrorFail |} "field1"
                  ltac:(discriminate) ltac:(reflexivity) ltac:(reflexivity))).
  vm_compute. reflexivity.
Defined.


Lemma GetGroup_of_coerced_witness :
  exists fieldDef,
    Fields testDefinition !! "field1" = Some fieldDef /\
    GetGroup testDefinition (Group fieldDef)
      (default ∅ (coerced (ApplyDefinition_range (H := go_ref) testDefinition
                             testPermittedFields (map_to_list testInput)
                             {| ErrorOnPermission := MissingErrorNone |})))
      !! "field1" = Some (VBool true).
Proof.
  apply (GetGroup_of_coerced (H := go_ref) testDefinition testPermittedFields
           testInput (map_to_list testInput)
           {| ErrorOnPermission := MissingErrorNone |}).
  - reflexivity.
  - vm_compute. reflexivity.
  - vm_compute. reflexivity.
Defined.

(** ** More on the coercions *)

Section CoercionsMore.
Context `{GoLib}.

(** X11. Identifier coercion: a UUID is returned as it is; a string, trimmed
    first when trimming is on, is given to [uuid.FromString], whose UUID and
    error are returned, so that the value is a UUID also when the string
    does not parse; a value of any other type gives nil and the error
    "Cannot convert type T to uuid.UUID". *)
Theorem ensureUUID_spec :
  (forall (u : UUID) (trim : bool), ensureUUID (VUUID u) trim = (VUUID u, None)) /\
  (forall (s : string) (trim : bool),
     let str := if trim then TrimSpace s else s in
     ensureUUID (VString s) trim =
       (VUUID (FromString str).1, (FromString str).2) /\
     is_uuid (ensureUUID (VString s) trim).1 = true) /\
  (forall (v : value) (trim : bool),
     is_uuid v = false -> is_string v = false ->
     ensureUUID v trim =
       (VNil, Some (New ("Cannot convert type " +:+ TypeOf v +:+ " to uuid.UUID")))).
Proof.
  split; [reflexivity | split].
  - intros s trim str. unfold ensureUUID. fold str.
    destruct (FromString str) as [u err] eqn:E.
    assert (Heq : (if trim then FromString (TrimSpace s) else FromString s) =
                  (u, err)).
    { rewrite <- E. unfold str. destruct trim; reflexivity. }
    rewrite Heq. split; reflexivity.
  - intros v trim Hu Hs. destruct v; try discriminate; reflexivity.
Qed.

Lemma coerce_field_again (fieldDef : FieldDefinition) (k : string)
    (v r : value) :
  (forall s, TrimSpace (TrimSpace s) = TrimSpace s) ->
  (coerce_field fieldDef k v ∅).1 !! k = Some r ->
  (coerce_field fieldDef k r ∅).1 !! k = Some r.
Proof.
  intros Hidem. unfold coerce_field.
  destruct (String.eqb (FieldType fieldDef) TypeBool).
  { destruct (ensureBool v _) as [r0 e0] eqn:E0. simpl.
    rewrite lookup_insert_eq. intros [= <-].
    assert (Hr : r0 = VNil \/ exists b, r0 = VBool b).
    { destruct v as [| b | s | u | ty f]; simpl in E0;
        try (injection E0 as <- _; eauto).
      destruct (_ || _); [injection E0 as <- _; eauto |].
      destruct (_ || _); injection E0 as <- _; eauto. }
    destruct Hr as [-> | [b ->]]; simpl; rewrite lookup_insert_eq; reflexivity. }
  destruct (String.eqb (FieldType fieldDef) TypeString).
  { destruct (ensureString v _) as [r0 e0] eqn:E0. simpl.
    rewrite lookup_insert_eq. intros [= <-].
    destruct v as [| b | s | u | ty f]; simpl in E0;
      try (injection E0 as <- _; simpl; rewrite lookup_insert_eq; reflexivity).
    destruct (negb (DisableTrim fieldDef)); injection E0 as <- _; simpl;
      rewrite lookup_insert_eq; [rewrite Hidem |]; reflexivity. }
  destruct (String.eqb (FieldType fieldDef) TypeUUID).
  { destruct (ensureUUID v _) as [r0 e0] eqn:E0. simpl.
    rewrite lookup_insert_eq. intros [= <-].
    assert (Hr : r0 = VNil \/ exists u, r0 = VUUID u).
    { destruct v as [| b | s | u | ty f]; simpl in E0;
        try (injection E0 as <- _; eauto).
      destruct (if negb (DisableTrim fieldDef) then _ else _) as [id err].
      injection E0 as <- _; eauto. }
    destruct Hr as [-> | [u ->]]; simpl; rewrite lookup_insert_eq; reflexivity. }
  simpl. rewrite lookup_empty. discriminate.
Qed.

(** X12. The coerced map of a call is left as it is by a second call with
    the same definition and permitted fields: applied to its own coerced
    map, [ApplyDefinition] returns this map again.  This holds when trimming
    a trimmed string changes nothing, as [strings.TrimSpace] does. *)
Theorem ApplyDefinition_coerced_fixed (def : Definition_)
    (permittedFields : list string) (m app : gmap string value)
    (options options' : ApplyOptions) :
  (forall s, TrimSpace (TrimSpace s) = TrimSpace s) ->
  coerced (ApplyDefinition def permittedFields m options) = Some app ->
  coerced (ApplyDefinition def permittedFields app options') = Some app.
Proof.
  intros Hidem Happ.
  assert (Hne : permittedFields <> []).
  { intros ->. discriminate. }
  destruct (ApplyDefinition_maps def permittedFields m options Hne)
    as (Ha & _ & _).
  rewrite Ha in Happ. injection Happ as <-.
  destruct (ApplyDefinition_maps def permittedFields
              (coerced_of def permittedFields m) options' Hne) as (-> & _ & _).
  f_equal. apply map_eq. intros k.
  rewrite (coerced_of_lookup def permittedFields (coerced_of def permittedFields m)).
  destruct (coerced_of def permittedFields m !! k) as [r |] eqn:Hr;
    [simpl | reflexivity].
  rewrite coerced_of_lookup in Hr.
  destruct (m !! k) as [v |]; [simpl in Hr | discriminate].
  unfold applied_entry in *.
  destruct (inList permittedFields k); [| discriminate].
  destruct (Fields def !! k) as [fieldDef |]; [| discriminate].
  apply (coerce_field_again fieldDef k v r Hidem Hr).
Qed.

End CoercionsMore.

Lemma ensureUUID_spec_witness :
  ensureUUID (H := go_ref) (VOther "forms.dummyStruct" "{}") true =
    (VNil, Some (New "Cannot convert type forms.dummyStruct to uuid.UUID")).
Proof.
  apply (proj2 (proj2 (ensureUUID_spec (H := go_ref)))); reflexivity.
Defined.

Lemma trim_right_again (s : string) :
  GoRef.trim_right (GoRef.trim_right s) = GoRef.trim_right s.
Proof.
  induction s as [| c s IH]; [reflexivity |]. simpl.
  destruct (GoRef.is_space c && String.eqb (GoRef.trim_right s) "") eqn:E;
    [reflexivity |].
  simpl. rewrite IH, E. reflexivity.
Qed.

Lemma trim_left_head (s : string) :
  match GoRef.trim_left s with
  | EmptyString => True
  | String c _ => GoRef.is_space c = false
  end.
Proof.
  induction s as [| c s IH]; [exact I |]. simpl.
  destruct (GoRef.is_space c) eqn:E; [exact IH | exact E].
Qed.

Lemma go_ref_TrimSpace_again (s : string) :
  GoRef.TrimSpace (GoRef.TrimSpace s) = GoRef.TrimSpace s.
Proof.
  unfold GoRef.TrimSpace. pose proof (trim_left_head s) as Hh.
  destruct (GoRef.trim_left s) as [| c t]; [reflexivity |].
  assert (Hl : GoRef.trim_left (GoRef.trim_right (String c t)) =
               GoRef.trim_right (String c t)).
  { simpl. rewrite Hh. simpl. rewrite Hh. reflexivity. }
  rewrite Hl. apply trim_right_again.
Qed.

Lemma ApplyDefinition_coerced_fixed_witness :
  let app : gmap string value :=
    default ∅ (coerced (ApplyDefinition (H := go_ref) testDefinition
                          testPermittedFields testInput
                          {| ErrorOnPermission := MissingErrorFail |})) in
  coerced (ApplyDefinition (H := go_ref) testDefinition testPermittedFields app
             {| ErrorOnPermission := MissingErrorNone |}) = Some app.
Proof.
  apply (ApplyDefinition_coerced_fixed (H := go_ref) testDefinition
           testPermittedFields testInput _
           {| ErrorOnPermission := MissingErrorFail |}
           {| ErrorOnPermission := MissingErrorNone |}).
  - exact go_ref_TrimSpace_again.
  - vm_compute. reflexivity.
Defined.

(** ** More on the validators *)

Section ValidatorsMore.
Context `{GoLib}.

(** X13. The validator of [ValidateOrChain] passes exactly when it has no
    delegate or one of its delegates passes; it then calls the delegates up
    to the first that passes and none after it, and when every delegate
    fails it calls them all. *)
Theorem ValidateOrChain_passes (validators : list Validator) (s : value) :
  (ValidateOrChain validators s = None <->
     validators = [] \/ exists vd, vd ∈ validators /\ vd s = None) /\
  (forall before vd after,
     validators = (before ++ vd :: after)%list ->
     Forall (fun vd : Validator => vd s <> None) before -> vd s = None ->
     ValidateOrChain_calls validators s = S (length before)) /\
  (Forall (fun vd : Validator => vd s <> None) validators ->
   ValidateOrChain_calls validators s = length validators).
Proof.
  destruct (ValidateOrChain_spec validators s) as (_ & Hiff & Hcalls & Hfail).
  split; [exact Hiff |]. split; [exact Hcalls |].
  intros Hall. destruct validators as [| vd rest]; [reflexivity |].
  apply Hfail; [discriminate | exact Hall].
Qed.

(** X14. When every delegate of a chain fails and the messages of the
    delegates hold no ['%'], the chain fails with one error whose message is
    these messages, in the order of the delegates, joined by " or ". *)
Theorem ValidateOrChain_joined (validators : list Validator) (s : value) :
  validators <> [] ->
  Forall (fun vd : Validator => vd s <> None) validators ->
  percent_free
    (Join (omap (fun vd : Validator => Error <$> vd s) validators) " or ") = true ->
  ValidateOrChain validators s =
    Some (New (Join (omap (fun vd : Validator => Error <$> vd s) validators)
                    " or ")).
Proof.
  intros Hne Hall Hfree.
  destruct (ValidateOrChain_spec validators s) as (_ & _ & _ & Hfail).
  apply (Hfail Hne Hall); exact Hfree.
Qed.

Lemma lang_star_chars p (s : string) :
  lang (Star (Class p)) s <-> all_chars p s = true.
Proof.
  rewrite lang_star_class. induction s as [| c s IH]; [reflexivity |].
  simpl. destruct (p c); [exact IH | reflexivity].
Qed.

Lemma lang_plus_class p (s : string) :
  lang (Plus (Class p)) s <-> s <> "" /\ all_chars p s = true.
Proof.
  unfold Plus. split.
  - intros Hl. apply lang_cat_inv in Hl as (s1 & s2 & -> & H1 & H2).
    apply lang_class_inv in H1 as (c & -> & Hc).
    apply lang_star_chars in H2. rewrite append_cons, append_empty_l.
    split; [discriminate |]. simpl. rewrite Hc. exact H2.
  - intros [Hne Hall]. destruct s as [| c s]; [contradiction |].
    simpl in Hall. apply andb_true_iff in Hall as [Hc Hall].
    apply lang_star_chars in Hall.
    exact (lang_cat _ _ (String c "") s (lang_class p c Hc) Hall).
Qed.

Lemma all_chars_append p (s1 s2 : string) :
  all_chars p (s1 +:+ s2) = all_chars p s1 && all_chars p s2.
Proof.
  induction s1 as [| c s1 IH]; [reflexivity |].
  rewrite append_cons. simpl. rewrite IH, andb_assoc. reflexivity.
Qed.

(** X15. [ValidateEmail] passes a string exactly when it has no white space
    (tab, line feed, form feed, carriage return, space) and holds an ['@']
    that is neither its first nor its last byte; it asks for nothing else,
    neither a dot nor a single ['@'].  Any other string fails with "Email
    address is invalid", a value that is no string with "Field must be
    string". *)
Theorem ValidateEmail_spec :
  (forall s : string,
     ValidateEmail (VString s) = None <->
     exists a b : string,
       s = a +:+ "@" +:+ b /\ a <> "" /\ b <> "" /\
       all_chars non_space s = true) /\
  (forall s : string,
     ValidateEmail (VString s) = None \/
     ValidateEmail (VString s) = Some (New "Email address is invalid")) /\
  (forall v : value,
     is_string v = false ->
     ValidateEmail v = Some (New "Field must be string")).
Proof.
  assert (Hat : non_space "@" = true) by reflexivity.
  assert (Hlang : forall s, MatchString emailRx s = true <->
            exists a b : string,
              s = a +:+ "@" +:+ b /\ a <> "" /\ b <> "" /\
              all_chars non_space s = true).
  { intros s. rewrite (MatchString_anchored emailRx s eq_refl eq_refl).
    simpl. split.
    - intros Hl. apply lang_cat_inv in Hl as (a & t & -> & Ha & Ht).
      apply lang_cat_inv in Ht as (x & b & -> & Hx & Hb).
      apply lang_class_inv in Hx as (c & -> & Hc).
      apply Ascii.eqb_eq in Hc as <-.
      apply lang_plus_class in Ha as [Hane Ha].
      apply lang_plus_class in Hb as [Hbne Hb].
      exists a, b. repeat split; try assumption.
      rewrite !all_chars_append, Ha, Hb. reflexivity.
    - intros (a & b & -> & Hane & Hbne & Hall).
      rewrite !all_chars_append in Hall.
      apply andb_true_iff in Hall as [Ha Hb].
      apply andb_true_iff in Hb as [_ Hb].
      apply lang_cat; [apply lang_plus_class; auto |].
      apply (lang_cat _ _ "@" b);
        [apply lang_class; reflexivity | apply lang_plus_class; auto]. }
  assert (Hstr : forall s, ValidateEmail (VString s) =
            if MatchString emailRx s then None
            else Some (New "Email address is invalid")).
  { intros s. unfold ValidateEmail. rewrite ValidateRegex_string. reflexivity. }
  split; [| split].
  - intros s. rewrite Hstr, <- Hlang.
    destruct (MatchString emailRx s); split; (reflexivity || discriminate).
  - intros s. rewrite Hstr. destruct (MatchString emailRx s); auto.
  - intros v Hv. destruct v; try discriminate; reflexivity.
Qed.

(** X16. [ValidateLettersWithNumbers] passes a string exactly when it is not
    empty and made of the letters a-z, A-Z and the digits 0-9; the empty
    string fails with "Must only contain letters and numbers". *)
Theorem ValidateLettersWithNumbers_spec :
  (forall s : string,
     ValidateLettersWithNumbers (VString s) = None <->
     s <> "" /\ all_chars is_alnum s = true) /\
  ValidateLettersWithNumbers (VString "") =
    Some (New "Must only contain letters and numbers") /\
  (forall v : value,
     is_string v = false ->
     ValidateLettersWithNumbers v = Some (New "Field must be string")).
Proof.
  split; [| split].
  - intros s. unfold ValidateLettersWithNumbers.
    rewrite ValidateRegex_string.
    rewrite <- lang_plus_class.
    rewrite <- (MatchString_anchored lettersWithNumbersRx s eq_refl eq_refl).
    destruct (MatchString lettersWithNumbersRx s); split;
      (reflexivity || discriminate).
  - reflexivity.
  - intros v Hv. destruct v; try discriminate; reflexivity.
Qed.

Lemma percent_free_uint (d : Decimal.uint) :
  percent_free (NilEmpty.string_of_uint d) = true.
Proof. induction d; simpl; assumption || reflexivity. Qed.

Lemma percent_free_Sprint_d (n : Z) : percent_free (Sprint_d n) = true.
Proof.
  unfold Sprint_d, NilZero.string_of_int, NilZero.string_of_uint.
  destruct (Z.to_int n) as [d | d]; destruct d; try reflexivity;
    simpl; apply percent_free_uint.
Qed.

(** X17. [ValidateLength m n] passes a string exactly when its length in
    bytes is between [m] and [n], both included; with [n < m] it passes no
    string.  A string of another length fails with "Must be exactly m
    characters long" when [m = n] and with "Must be between m and n
    characters long" otherwise; a value that is no string fails with "Field
    must be a string". *)
Theorem ValidateLength_spec (m n : Z) :
  (forall s : string,
     ValidateLength m n (VString s) = None <->
     (m <= Z.of_nat (String.length s) <= n)%Z) /\
  ((n < m)%Z -> forall s : string, ValidateLength m n (VString s) <> None) /\
  (forall s : string,
     ValidateLength m n (VString s) <> None ->
     ValidateLength m n (VString s) =
       Some (New (if (m =? n)%Z
                  then "Must be exactly " +:+ Sprint_d m +:+ " characters long"
                  else "Must be between " +:+ Sprint_d m +:+ " and " +:+
                       Sprint_d n +:+ " characters long"))) /\
  (forall v : value,
     is_string v = false ->
     ValidateLength m n v = Some (New "Field must be a string")).
Proof.
  assert (Hiff : forall s, ValidateLength m n (VString s) = None <->
                   (m <= Z.of_nat (String.length s) <= n)%Z).
  { intros s. unfold ValidateLength.
    destruct (Z.ltb_spec (Z.of_nat (String.length s)) m);
      destruct (Z.gtb_spec (Z.of_nat (String.length s)) n); simpl;
      split; intros Hx; try discriminate; try reflexivity; lia. }
  split; [exact Hiff |]. split; [| split].
  - intros Hlt s Hs. apply Hiff in Hs. lia.
  - intros s Hs. unfold ValidateLength in *.
    destruct (_ || _); [| contradiction].
    f_equal. unfold Errorf0. f_equal. apply Sprintf0_plain.
    destruct (m =? n)%Z; rewrite !percent_free_append, !percent_free_Sprint_d;
      reflexivity.
  - intros v Hv. destruct v; try discriminate; reflexivity.
Qed.

(** X18. [ValidateMinimumLength n] passes a string exactly when its length
    in bytes is at least [n], hence every string when [n <= 0]; a shorter
    string fails with "Must be at least n characters long"; and
    [ValidateLength m n] passes a string exactly when [ValidateMinimumLength
    m] passes it and its length is at most [n]. *)
Theorem ValidateMinimumLength_spec (m n : Z) :
  (forall s : string,
     ValidateMinimumLength n (VString s) = None <->
     (n <= Z.of_nat (String.length s))%Z) /\
  ((n <= 0)%Z -> forall s : string, ValidateMinimumLength n (VString s) = None) /\
  (forall s : string,
     ValidateMinimumLength n (VString s) <> None ->
     ValidateMinimumLength n (VString s) =
       Some (New ("Must be at least " +:+ Sprint_d n +:+ " characters long"))) /\
  (forall s : string,
     ValidateLength m n (VString s) = None <->
     ValidateMinimumLength m (VString s) = None /\
     (Z.of_nat (String.length s) <= n)%Z) /\
  (forall v : value,
     is_string v = false ->
     ValidateMinimumLength n v = Some (New "Field must be a string")).
Proof.
  assert (Hiff : forall k s, ValidateMinimumLength k (VString s) = None <->
                   (k <= Z.of_nat (String.length s))%Z).
  { intros k s. unfold ValidateMinimumLength.
    destruct (Z.ltb_spec (Z.of_nat (String.length s)) k);
      split; intros Hx; try discriminate; try reflexivity; lia. }
  split; [apply Hiff |]. split; [| split; [| split]].
  - intros Hn s. apply Hiff. lia.
  - intros s Hs. unfold ValidateMinimumLength in *.
    destruct (_ <? _)%Z; [reflexivity | contradiction].
  - intros s. rewrite Hiff. unfold ValidateLength.
    destruct (Z.ltb_spec (Z.of_nat (String.length s)) m);
      destruct (Z.gtb_spec (Z.of_nat (String.length s)) n); simpl;
      split; intros Hx; try discriminate; try reflexivity; lia.
  - intros v Hv. destruct v; try discriminate; reflexivity.
Qed.

(** X19. On a boolean exactly one of [ValidateTrue] and [ValidateFalse]
    passes: the first on true, the second on false; so a chain of the two
    passes every boolean.  On a value that is no boolean the first fails
    with "Field must be a boolean" and the second with "Value must be a
    bool". *)
Theorem ValidateTrue_ValidateFalse (msg msg' : string) :
  (forall b : bool,
     (ValidateTrue msg (VBool b) = None <-> b = true) /\
     (ValidateFalse msg' (VBool b) = None <-> b = false) /\
     ValidateOrChain [ValidateTrue msg; ValidateFalse msg'] (VBool b) = None) /\
  (forall v : value,
     is_bool v = false ->
     ValidateTrue msg v = Some (New "Field must be a boolean") /\
     ValidateFalse msg' v = Some (New "Value must be a bool")).
Proof.
  split.
  - intros []; simpl; repeat split; intros; try reflexivity; discriminate.
  - intros v Hv. destruct v; try discriminate; split; reflexivity.
Qed.

(** X20. [ValidateUUID] passes a string exactly when [uuid.FromString] reads
    it, that is when identifier coercion without trimming succeeds on it;
    but it fails with "Field must be a string" on every value that
    identifier coercion returns without error, which is a UUID and no
    string. *)
Theorem ValidateUUID_spec :
  (forall s : string,
     ValidateUUID (VString s) = None <->
     (ensureUUID (VString s) false).2 = None) /\
  (forall s : string,
     ValidateUUID (VString s) = None \/
     ValidateUUID (VString s) = Some (New "Expected UUID for field")) /\
  (forall (v : value) (trim : bool),
     (ensureUUID v trim).2 = None ->
     ValidateUUID (ensureUUID v trim).1 = Some (New "Field must be a string")).
Proof.
  split; [| split].
  - intros s. unfold ValidateUUID, ensureUUID.
    destruct (FromString s) as [u [e |]]; simpl; split; intros Hx;
      (reflexivity || discriminate).
  - intros s. unfold ValidateUUID.
    destruct (FromString s).2; auto.
  - intros v trim Hok. pose proof (ensureUUID_ok_type v trim Hok) as Ht.
    destruct (ensureUUID v trim).1; try discriminate. reflexivity.
Qed.

(** X21. A type assertion that holds gives a value that is not nil; so
    [ValidateNoError] never passes, and never uses its message: on a value
    that is an error it fails with the text "message", on any other value
    with "Value must be an error". *)
Theorem ValidateNoError_never_passes
    (as_error : value -> option (option error)) (message : string) (v : value) :
  (forall v', as_error v' <> Some None) ->
  ValidateNoError as_error message v <> None /\
  ValidateNoError as_error message v =
    Some (New (match as_error v with
               | Some _ => "message"
               | None => "Value must be an error"
               end)).
Proof.
  intros Hgo. unfold ValidateNoError. specialize (Hgo v).
  destruct (as_error v) as [[e |] |]; [| contradiction |];
    split; (discriminate || reflexivity).
Qed.

End ValidatorsMore.

Lemma ValidateOrChain_passes_witness :
  ValidateOrChain_calls
    [ValidateFail (H := go_ref) "a"; ValidateNumbers (H := go_ref);
     ValidateFail (H := go_ref) "b"] (VString "-12") = 2%nat.
Proof.
  apply (proj1 (proj2 (ValidateOrChain_passes (H := go_ref)
                         [ValidateFail (H := go_ref) "a";
                          ValidateNumbers (H := go_ref);
                          ValidateFail (H := go_ref) "b"] (VString "-12")))
           [ValidateFail (H := go_ref) "a"] (ValidateNumbers (H := go_ref))
           [ValidateFail (H := go_ref) "b"]).
  - reflexivity.
  - repeat constructor. discriminate.
  - reflexivity.
Defined.

Lemma ValidateOrChain_joined_witness :
  ValidateOrChain (H := go_ref)
    [ValidateNumbers (H := go_ref); ValidateEmail (H := go_ref)]
    (VString "x y") =
  Some (New (Join (omap (fun vd : Validator => Error <$> vd (VString "x y"))
                        [ValidateNumbers (H := go_ref);
                         ValidateEmail (H := go_ref)]) " or ")).
Proof.
  apply (ValidateOrChain_joined (H := go_ref)
           [ValidateNumbers (H := go_ref); ValidateEmail (H := go_ref)]
           (VString "x y")).
  - discriminate.
  - repeat constructor; discriminate.
  - reflexivity.
Defined.

Example test_ValidateOrChain_joined :
  ValidateOrChain (H := go_ref)
    [ValidateNumbers (H := go_ref); ValidateEmail (H := go_ref)]
    (VString "x y") =
  Some (New "Must be numbers only or Email address is invalid").
Proof. reflexivity. Qed.

Lemma ValidateEmail_spec_witness :
  ValidateEmail (H := go_ref) (VBool true) = Some (New "Field must be string").
Proof.
  apply (proj2 (proj2 (ValidateEmail_spec (H := go_ref)))). reflexivity.
Defined.

Example test_ValidateEmail :
  ValidateEmail (H := go_ref) (VString "a@b") = None /\
  ValidateEmail (H := go_ref) (VString "a@b@c") = None /\
  ValidateEmail (H := go_ref) (VString "@b") <> None /\
  ValidateEmail (H := go_ref) (VString "a@") <> None /\
  ValidateEmail (H := go_ref) (VString "a b@c") <> None.
Proof. repeat split; discriminate. Qed.

Lemma ValidateLettersWithNumbers_spec_witness :
  ValidateLettersWithNumbers (H := go_ref) (VBool true) =
    Some (New "Field must be string").
Proof.
  apply (proj2 (proj2 (ValidateLettersWithNumbers_spec (H := go_ref)))).
  reflexivity.
Defined.

Lemma ValidateLength_spec_witness :
  ValidateLength (H := go_ref) 5 3 (VString "abcd") <> None.
Proof.
  apply (proj1 (proj2 (ValidateLength_spec (H := go_ref) 5 3))). lia.
Defined.

Example test_ValidateLength :
  ValidateLength (H := go_ref) 2 4 (VString "abc") = None /\
  ValidateLength (H := go_ref) 2 4 (VString "abcde") =
    Some (New "Must be between 2 and 4 characters long") /\
  ValidateLength (H := go_ref) 3 3 (VString "ab") =
    Some (New "Must be exactly 3 characters long") /\
  ValidateMinimumLength (H := go_ref) 3 (VString "ab") =
    Some (New "Must be at least 3 characters long").
Proof. repeat split. Qed.

Lemma ValidateMinimumLength_spec_witness :
  ValidateMinimumLength (H := go_ref) (-1) (VString "") = None.
Proof.
  apply (proj1 (proj2 (ValidateMinimumLength_spec (H := go_ref) 0 (-1)))).
  lia.
Defined.

Lemma ValidateTrue_ValidateFalse_witness :
  ValidateTrue (H := go_ref) "must be checked" (VString "on") =
    Some (New "Field must be a boolean") /\
  ValidateFalse (H := go_ref) "must not be checked" (VString "on") =
    Some (New "Value must be a bool").
Proof.
  apply (proj2 (ValidateTrue_ValidateFalse (H := go_ref) "must be checked"
                  "must not be checked")).
  reflexivity.
Defined.

Lemma ValidateUUID_spec_witness :
  ValidateUUID (H := go_ref)
    (ensureUUID (H := go_ref)
       (VString "123e4567-e89b-12d3-a456-426614174000") true).1 =
    Some (New "Field must be a string").
Proof.
  apply (proj2 (proj2 (ValidateUUID_spec (H := go_ref)))). reflexivity.
Defined.

(** ** The earlier revision of the engine *)

Section Legacy.
Context `{GoLib}.

Lemma check_validations_errors (validations : list Validator) (k : string)
    (app : gmap string value) :
  forall (i i' : nat) (errs : gmap string (list error)) (cs cs' : list Call),
  (check_validations validations i k app errs cs).1 =
    (check_validations validations i' k app errs cs').1.
Proof.
  induction validations as [| vd rest IH]; intros i i' errs cs cs'; simpl.
  - reflexivity.
  - destruct (vd (index app k)); apply IH.
Qed.

Lemma coerce_field_legacy_eq (fieldDef : FieldDefinition) (k : string)
    (v : value) (app : gmap string value) :
  DisableTrim fieldDef = true ->
  (FieldType fieldDef = TypeString -> is_string v = true) ->
  coerce_field_legacy (legacy_field fieldDef) k v app =
    coerce_field fieldDef k v app.
Proof.
  intros Htrim Hstr. unfold coerce_field_legacy, coerce_field. simpl.
  rewrite Htrim. simpl.
  destruct (String.eqb (FieldType fieldDef) TypeBool); [reflexivity |].
  destruct (String.eqb_spec (FieldType fieldDef) TypeString) as [Et | _].
  { specialize (Hstr Et). destruct v; try discriminate. reflexivity. }
  destruct (String.eqb (FieldType fieldDef) TypeUUID); reflexivity.
Qed.

Lemma apply_entry_legacy_eq (def : Definition_) (permittedFields : list string)
    (options : ApplyOptions) (fail : bool) (st : State) (k : string)
    (v : value) :
  (fail = true <-> ErrorOnPermission options = MissingErrorFail) ->
  (k ∈ permittedFields -> forall fieldDef,
     Fields def !! k = Some fieldDef ->
     DisableTrim fieldDef = true /\
     (FieldType fieldDef = TypeString -> is_string v = true)) ->
  (k ∉ permittedFields -> fail = true -> percent_free k = true) ->
  apply_entry_legacy (legacy_definition def) permittedFields
    {| ErrorOnPermission_legacy := fail |} (applied st, errors st) k v =
  (applied (apply_entry def permittedFields options st k v),
   errors (apply_entry def permittedFields options st k v)).
Proof.
  intros Hmode Hin Hout. unfold apply_entry_legacy, apply_entry. simpl.
  destruct (inList permittedFields k) eqn:Hk; simpl.
  - apply inList_elem_of in Hk. specialize (Hin Hk).
    rewrite lookup_fmap.
    destruct (Fields def !! k) as [fieldDef |]; simpl; [| reflexivity].
    destruct (Hin fieldDef eq_refl) as [Htrim Hstr].
    rewrite (coerce_field_legacy_eq fieldDef k v (applied st) Htrim Hstr).
    destruct (coerce_field fieldDef k v (applied st)) as [app' [e |]]; simpl;
      [reflexivity |].
    destruct (check_validations (Validations fieldDef) 0 k app' (errors st)
                (calls st)) as [errs' cs'] eqn:Ecv. simpl. f_equal.
    apply (f_equal fst) in Ecv. simpl in Ecv. rewrite <- Ecv.
    apply check_validations_errors.
  - assert (Hnot : k ∉ permittedFields).
    { intros Hel. apply inList_elem_of in Hel. congruence. }
    destruct (String.eqb_spec (ErrorOnPermission options) MissingErrorWarn)
      as [Ew | Nw].
    { destruct fail; [| reflexivity].
      destruct Hmode as [Hm _]. rewrite Ew in Hm.
      specialize (Hm eq_refl). discriminate. }
    destruct (String.eqb_spec (ErrorOnPermission options) MissingErrorFail)
      as [Ef | Nf].
    + destruct fail; [| destruct Hmode as [_ Hm]; specialize (Hm Ef); discriminate].
      simpl. f_equal. f_equal. unfold Errorf0. f_equal. symmetry.
      apply Sprintf0_plain. rewrite !percent_free_append.
      rewrite (Hout Hnot eq_refl). reflexivity.
    + destruct fail; [| reflexivity].
      destruct Hmode as [Hm _]. specialize (Hm eq_refl). contradiction.
Qed.

(** X22. The two revisions of [ApplyDefinition] return the same maps and the
    same error when the fields of the permitted keys of the input disable
    trimming, the values given for their string fields are strings, and, if
    errors are asked for fields that are not permitted, the names of these
    fields hold no ['%']. *)
Theorem ApplyDefinition_legacy_agreement (def : Definition_)
    (permittedFields : list string) (entries : list (string * value))
    (options : ApplyOptions) (fail : bool) :
  (fail = true <-> ErrorOnPermission options = MissingErrorFail) ->
  (forall k v fieldDef,
     (k, v) ∈ entries -> k ∈ permittedFields ->
     Fields def !! k = Some fieldDef ->
     DisableTrim fieldDef = true /\
     (FieldType fieldDef = TypeString -> is_string v = true)) ->
  (forall k v,
     (k, v) ∈ entries -> k ∉ permittedFields -> fail = true ->
     percent_free k = true) ->
  ApplyDefinition_legacy_range (legacy_definition def) permittedFields entries
    {| ErrorOnPermission_legacy := fail |} =
  (coerced (ApplyDefinition_range def permittedFields entries options),
   fieldErrors (ApplyDefinition_range def permittedFields entries options),
   topError (ApplyDefinition_range def permittedFields entries options)).
Proof.
  intros Hmode Hin Hout.
  unfold ApplyDefinition_legacy_range, ApplyDefinition_range.
  destruct (Nat.eqb (length permittedFields) 0); [reflexivity |]. simpl.
  assert (Hfold : forall st,
    foldl (fun st kv =>
             apply_entry_legacy (legacy_definition def) permittedFields
               {| ErrorOnPermission_legacy := fail |} st kv.1 kv.2)
          (applied st, errors st) entries =
    (applied (apply_entries def permittedFields options entries st),
     errors (apply_entries def permittedFields options entries st))).
  { induction entries as [| [k v] rest IH]; intros st; [reflexivity |].
    change (apply_entries def permittedFields options ((k, v) :: rest) st)
      with (apply_entries def permittedFields options rest
              (apply_entry def permittedFields options st k v)).
    simpl foldl.
    rewrite (apply_entry_legacy_eq def permittedFields options fail st k v Hmode).
    - apply IH.
      + intros k' v' fd Hel. apply Hin. apply list_elem_of_further; exact Hel.
      + intros k' v' Hel. apply (Hout k' v'). apply list_elem_of_further; exact Hel.
    - intros Hk fd. apply (Hin k v fd); [apply list_elem_of_here | exact Hk].
    - apply (Hout k v). apply list_elem_of_here. }
  specialize (Hfold {| applied := ∅; errors := ∅; warnings := []; calls := [] |}).
  cbn [applied errors] in Hfold. rewrite Hfold. reflexivity.
Qed.

End Legacy.

Lemma ApplyDefinition_legacy_agreement_witness :
  let def := {| Fields := {["field4" := testField TypeString true]} |} in
  let fail := {| ErrorOnPermission := MissingErrorFail |} in
  ApplyDefinition_legacy_range (H := go_ref) (legacy_definition def) ["field4"]
    (map_to_list testInput) {| ErrorOnPermission_legacy := true |} =
  (coerced (ApplyDefinition_range (H := go_ref) def ["field4"]
              (map_to_list testInput) fail),
   fieldErrors (ApplyDefinition_range (H := go_ref) def ["field4"]
                  (map_to_list testInput) fail),
   topError (ApplyDefinition_range (H := go_ref) def ["field4"]
               (map_to_list testInput) fail)).
Proof.
  apply (ApplyDefinition_legacy_agreement (H := go_ref)
           {| Fields := {["field4" := testField TypeString true]} |}
           ["field4"] (map_to_list testInput)
           {| ErrorOnPermission := MissingErrorFail |} true).
  - split; reflexivity.
  - intros k v fieldDef Hel Hk Hfd.
    apply list_elem_of_singleton in Hk as ->.
    apply elem_of_map_to_list in Hel.
    vm_compute in Hel. injection Hel as <-.
    vm_compute in Hfd. injection Hfd as <-. split; reflexivity.
  - intros k v Hel _ _. apply elem_of_map_to_list in Hel.
    unfold testInput in Hel.
    repeat (rewrite lookup_insert in Hel; case_decide;
            [subst k; reflexivity |]).
    rewrite lookup_empty in Hel. discriminate.
Defined.

(** ** User names *)

Section Usernames.
Context `{GoLib}.

Lemma separator_not_alnum (c : ascii) :
  is_separator c = true -> is_alnum c = false.
Proof.
  unfold is_separator. intros Hs. apply orb_true_iff in Hs as [Hs | Hs];
    apply Ascii.eqb_eq in Hs as ->; reflexivity.
Qed.

Lemma username_tail_cons (c : ascii) (rest : string) :
  username_tail (String c rest) =
    if is_alnum c then username_tail rest
    else is_separator c
         && match rest with
            | String c' _ => is_alnum c'
            | EmptyString => false
            end
         && username_tail rest.
Proof. reflexivity. Qed.

Lemma username_tail_lang (rest : string) :
  username_tail rest = true <->
  lang (Cat (Star (Class is_alnum))
            (Star (Cat (Class is_separator) (Plus (Class is_alnum))))) rest.
Proof.
  induction rest as [| c r IH].
  - split; [intros _ | reflexivity].
    exact (lang_cat _ _ "" "" (lang_star_nil _) (lang_star_nil _)).
  - split.
    + simpl. destruct (is_alnum c) eqn:Hc.
      * intros Ht. apply IH in Ht.
        apply lang_cat_inv in Ht as (a & l & -> & Ha & Hl).
        rewrite <- append_cons. apply lang_cat; [| exact Hl].
        exact (lang_star_app _ (String c "") a (lang_class _ c Hc) Ha).
      * intros Ht. apply andb_true_iff in Ht as [Ht Hr].
        apply andb_true_iff in Ht as [Hs Hnext].
        destruct r as [| c' r']; [discriminate |].
        apply IH in Hr. apply lang_cat_inv in Hr as (a & l & Er & Ha & Hl).
        destruct a as [| a0 a'].
        { rewrite append_empty_l in Er. subst l.
          apply lang_star_cons_inv in Hl as (s1 & s2 & _ & Hg & _).
          apply lang_cat_inv in Hg as (x & y & Exy & Hx & _).
          apply lang_class_inv in Hx as (c0 & -> & Hc0).
          rewrite append_cons in Exy. injection Exy as -> _.
          rewrite (separator_not_alnum _ Hc0) in Hnext. discriminate. }
        rewrite Er. apply lang_star_chars in Ha.
        apply (lang_cat _ _ "" (String c (String a0 a' +:+ l)) (lang_star_nil _)).
        change (String c (String a0 a' +:+ l))
          with ((String c "" +:+ String a0 a') +:+ l).
        apply lang_star_app; [| exact Hl].
        apply lang_cat; [apply lang_class; exact Hs |].
        apply lang_plus_class. split; [discriminate | exact Ha].
    + intros Hl. apply lang_cat_inv in Hl as (a & l & Ecr & Ha & Hl).
      destruct a as [| a0 a'].
      * rewrite append_empty_l in Ecr. subst l.
        apply lang_star_cons_inv in Hl as (s1 & s2 & -> & Hg & Hl2).
        apply lang_cat_inv in Hg as (x & y & Exy & Hx & Hy).
        apply lang_class_inv in Hx as (c0 & -> & Hc0).
        rewrite append_cons, append_empty_l in Exy. injection Exy as <- <-.
        apply lang_plus_class in Hy as [Hyne Hy].
        destruct s1 as [| y0 y']; [contradiction |].
        assert (Hr : username_tail (String y0 y' +:+ s2) = true).
        { apply IH.
          apply lang_cat; [apply lang_star_chars; exact Hy | exact Hl2]. }
        pose proof Hy as Hy'. simpl in Hy'.
        apply andb_true_iff in Hy' as [Hy0 _].
        rewrite username_tail_cons, (separator_not_alnum _ Hc0), Hc0, Hr.
        rewrite append_cons, Hy0. reflexivity.
      * rewrite append_cons in Ecr. injection Ecr as <- ->.
        apply lang_star_chars in Ha. simpl in Ha.
        apply andb_true_iff in Ha as [Ha0 Ha'].
        simpl. rewrite Ha0. apply IH.
        apply lang_cat; [apply lang_star_chars; exact Ha' | exact Hl].
Qed.

Lemma usernameRx_lang (s : string) :
  lang (body usernameRx) s <-> username_shape s = true.
Proof.
  simpl. split.
  - intros Hl. apply lang_cat_inv in Hl as (p & l & -> & Hp & Hl).
    pose proof Hp as Hp'. apply lang_plus_class in Hp' as [Hne Hall].
    destruct p as [| c a]; [contradiction |].
    simpl in Hall. apply andb_true_iff in Hall as [Hc Ha].
    rewrite append_cons. simpl. rewrite Hc. simpl.
    apply username_tail_lang.
    apply lang_cat; [apply lang_star_chars; exact Ha | exact Hl].
  - intros Hs. destruct s as [| c rest]; [discriminate |].
    simpl in Hs. apply andb_true_iff in Hs as [Hc Ht].
    apply username_tail_lang in Ht.
    apply lang_cat_inv in Ht as (a & l & -> & Ha & Hl).
    rewrite <- append_cons. apply lang_cat; [| exact Hl].
    apply lang_plus_class. split; [discriminate |].
    simpl. rewrite Hc. apply lang_star_chars; exact Ha.
Qed.

(** X23. [ValidateUsername] passes a string exactly when it starts with a
    letter or digit and goes on with letters, digits and separators ['_']
    or ['-'], each separator followed by a letter or digit: so a name may
    neither begin nor end with a separator, nor hold two separators in a
    row. *)
Theorem ValidateUsername_spec :
  (forall s : string,
     ValidateUsername (VString s) = None <-> username_shape s = true) /\
  (forall (a b : string) (c c' : ascii),
     is_separator c = true -> is_separator c' = true ->
     ValidateUsername (VString (String c b)) <> None /\
     ValidateUsername (VString (a +:+ String c "")) <> None /\
     ValidateUsername (VString (a +:+ String c (String c' b))) <> None) /\
  (forall v : value,
     is_string v = false ->
     ValidateUsername v = Some (New "Field must be string")).
Proof.
  assert (Hiff : forall s,
            ValidateUsername (VString s) = None <-> username_shape s = true).
  { intros s. unfold ValidateUsername. rewrite ValidateRegex_string.
    rewrite <- usernameRx_lang.
    rewrite <- (MatchString_anchored usernameRx s eq_refl eq_refl).
    destruct (MatchString usernameRx s); split; (reflexivity || discriminate). }
  assert (Htail_end : forall a c, is_separator c = true ->
            username_tail (a +:+ String c "") = false).
  { intros a c Hc. induction a as [| a0 a IH].
    - simpl. rewrite (separator_not_alnum _ Hc), Hc. reflexivity.
    - rewrite append_cons. simpl. rewrite IH.
      destruct (is_alnum a0); [reflexivity | apply andb_false_r]. }
  assert (Htail_two : forall a b c c', is_separator c = true ->
            is_separator c' = true ->
            username_tail (a +:+ String c (String c' b)) = false).
  { intros a b c c' Hc Hc'. induction a as [| a0 a IH].
    - simpl. rewrite (separator_not_alnum _ Hc), Hc.
      rewrite (separator_not_alnum _ Hc'). reflexivity.
    - rewrite append_cons. simpl. rewrite IH.
      destruct (is_alnum a0); [reflexivity | apply andb_false_r]. }
  split; [exact Hiff |]. split.
  - intros a b c c' Hc Hc'. rewrite !Hiff. repeat split.
    + simpl. rewrite (separator_not_alnum _ Hc). discriminate.
    + destruct a as [| a0 a].
      * simpl. rewrite (separator_not_alnum _ Hc). discriminate.
      * rewrite append_cons. simpl. rewrite Htail_end by exact Hc.
        rewrite andb_false_r. discriminate.
    + destruct a as [| a0 a].
      * simpl. rewrite (separator_not_alnum _ Hc). discriminate.
      * rewrite append_cons. simpl. rewrite Htail_two by assumption.
        rewrite andb_false_r. discriminate.
  - intros v Hv. destruct v; try discriminate; reflexivity.
Qed.

End Usernames.

Lemma ValidateNoError_never_passes_witness :
  let as_error (v : value) : option (option error) :=
    match v with
    | VOther _ text => Some (Some (New text))
    | _ => None
    end in
  ValidateNoError (H := go_ref) as_error "no error expected"
    (VOther "*errors.errorString" "boom") <> None /\
  ValidateNoError (H := go_ref) as_error "no error expected"
    (VOther "*errors.errorString" "boom") = Some (New "message").
Proof.
  apply (ValidateNoError_never_passes (H := go_ref)
           (fun v : value =>
              match v with
              | VOther _ text => Some (Some (New text))
              | _ => None
              end) "no error expected" (VOther "*errors.errorString" "boom")).
  intros v'. destruct v'; discriminate.
Defined.

Lemma ValidateUsername_spec_witness :
  ValidateUsername (H := go_ref) (VString ("_" +:+ "ab")) <> None /\
  ValidateUsername (H := go_ref) (VString ("ab" +:+ "-")) <> None /\
  ValidateUsername (H := go_ref) (VString ("a" +:+ "_-b")) <> None.
Proof.
  apply (proj1 (proj2 (ValidateUsername_spec (H := go_ref))) "a"%string
           "b"%string "_"%char "-"%char); reflexivity.
Defined.

Example test_ValidateUsername :
  ValidateUsername (H := go_ref) (VString "a_b-c9") = None /\
  ValidateUsername (H := go_ref) (VString "a--b") <> None /\
  ValidateUsername (H := go_ref) (VString "") <> None.
Proof. repeat split; discriminate. Qed.
